(** * Trajectory analytics of YOLO-APD1: speed estimation and heatmap counting

    A shallow embedding of
      - ultralytics/solutions/speed_estimation.py (class SpeedEstimator)
      - ultralytics/solutions/heatmap.py          (class Heatmap)
    and the properties of the two per-frame entry points.

    Conventions of the embedding.
      - Python floats (box coordinates, wall-clock readings, heatmap cells)
        are idealised as rationals [Q]; integers are [Z].
      - A method is a function from the object's state to the state after
        the call together with its outcome.  A raised exception keeps the
        mutations done before it, as in Python.
      - Drawing (Annotator, cv2) has no effect on the state of the two
        classes and is left out; wall-clock readings and the pressed key
        are inputs of a call. *)

From Stdlib Require Import QArith Qround Qabs Qpower.
From stdpp Require Import gmap strings list.

Local Open Scope Z_scope.

(** ** Python values shared by the two classes *)

(** A point [(x, y)]. *)
Abbreviation point := (Q * Q)%type.

(** A detection box [x1, y1, x2, y2] (one row of [boxes.xyxy]). *)
Record box := mkBox { bx0 : Q; by0 : Q; bx1 : Q; by1 : Q }.

(** The exceptions the two files can raise.  A [KeyError] records the
    attribute whose subscript failed and the missing key ([KeyErrorStr]
    for a dictionary keyed by strings). *)
Inductive exn :=
| NameError (name : string)
| KeyError (mapping : string) (key : Z)
| KeyErrorStr (mapping : string) (key : string)
| IndexError
| TypeError
| AttributeError (name : string)
| GEOSException.

Inductive outcome (A : Type) :=
| Ok (a : A)
| Raise (e : exn).
Arguments Ok {A} a.
Arguments Raise {A} e.

(** What a per-frame entry point hands back: the image, or [None] when the
    display window received the key q. *)
Inductive returned := RetImage | RetNone.

(** Computations over an object of state [S]. *)
Definition Py (S A : Type) : Type := S -> S * outcome A.

Definition ret {S A} (a : A) : Py S A := fun s => (s, Ok a).
Definition raise {S A} (e : exn) : Py S A := fun s => (s, Raise e).
Definition bind {S A B} (c : Py S A) (k : A -> Py S B) : Py S B :=
  fun s => match c s with
           | (s', Ok a) => k a s'
           | (s', Raise e) => (s', Raise e)
           end.
Definition get {S} : Py S S := fun s => (s, Ok s).
Definition modify {S} (f : S -> S) : Py S unit := fun s => (f s, Ok tt).

Notation "'let*' x ':=' c 'in' k" := (bind c (fun x => k))
  (at level 10, x pattern, c at level 100, k at level 200).
Notation "c ';;' k" := (bind c (fun _ => k))
  (at level 100, k at level 200, right associativity).

(** [for x in xs: body x], stopping at the first exception. *)
Fixpoint for_each {S X} (body : X -> Py S unit) (xs : list X) : Py S unit :=
  match xs with
  | [] => ret tt
  | x :: rest => body x ;; for_each body rest
  end.

(** The state a computation leaves, and its outcome. *)
Definition exec {S A} (c : Py S A) (s : S) : S := fst (c s).
Definition result {S A} (c : Py S A) (s : S) : outcome A := snd (c s).

(** Strict comparison of floats, [a < b]. *)
Definition Qltb (a b : Q) : bool := negb (Qle_bool b a).

(** [int(x)] of a float: truncation toward zero. *)
Definition py_int (x : Q) : Z := Z.quot (Qnum x) (Z.pos (Qden x)).

(** [xs[i]] for a non-negative literal index. *)
Definition index {S A} (xs : list A) (i : nat) : Py S A :=
  match xs !! i with
  | Some a => ret a
  | None => raise IndexError
  end.

(** [xs[-1]]. *)
Definition index_last {S A} (xs : list A) : Py S A :=
  match last xs with
  | Some a => ret a
  | None => raise IndexError
  end.

(** [xs[-2]]. *)
Definition index_last2 {A} (xs : list A) : option A :=
  match rev xs with
  | _ :: a :: _ => Some a
  | _ => None
  end.

(** The history update both classes perform on a track:
    [track.append(c); if len(track) > 30: track.pop(0)]. *)
Definition append_bounded (track : list point) (c : point) : list point :=
  let track' := track ++ [c] in
  if (30 <? Z.of_nat (length track')) then tail track' else track'.

(** [float((box[0] + box[2]) / 2), float((box[1] + box[3]) / 2)]. *)
Definition bbox_center (b : box) : point :=
  (((bx0 b + bx1 b) / 2)%Q, ((by0 b + by1 b) / 2)%Q).

(** ** speed_estimation.py *)

Module SpeedEstimator.

(** The attributes of a [SpeedEstimator] object. *)
Record t := mk {
  view_img : bool;
  reg_pts : list point;
  names : gmap Z string;
  tf : Z;
  trk_history : gmap Z (list point);
  current_time : Q;
  spd : gmap Z Q;
  trkd_ids : list Z;
  spdl : Q;
  trk_pt : gmap Z Q;
  trk_pp : gmap Z point;
  env_check : bool
}.

(** Assignments to single attributes. *)
Definition set_trk_history (f : gmap Z (list point) -> gmap Z (list point)) (s : t) : t :=
  mk (view_img s) (reg_pts s) (names s) (tf s) (f (trk_history s)) (current_time s)
     (spd s) (trkd_ids s) (spdl s) (trk_pt s) (trk_pp s) (env_check s).
Definition set_spd (f : gmap Z Q -> gmap Z Q) (s : t) : t :=
  mk (view_img s) (reg_pts s) (names s) (tf s) (trk_history s) (current_time s)
     (f (spd s)) (trkd_ids s) (spdl s) (trk_pt s) (trk_pp s) (env_check s).
Definition set_trkd_ids (f : list Z -> list Z) (s : t) : t :=
  mk (view_img s) (reg_pts s) (names s) (tf s) (trk_history s) (current_time s)
     (spd s) (f (trkd_ids s)) (spdl s) (trk_pt s) (trk_pp s) (env_check s).
Definition set_trk_pt (f : gmap Z Q -> gmap Z Q) (s : t) : t :=
  mk (view_img s) (reg_pts s) (names s) (tf s) (trk_history s) (current_time s)
     (spd s) (trkd_ids s) (spdl s) (f (trk_pt s)) (trk_pp s) (env_check s).
Definition set_trk_pp (f : gmap Z point -> gmap Z point) (s : t) : t :=
  mk (view_img s) (reg_pts s) (names s) (tf s) (trk_history s) (current_time s)
     (spd s) (trkd_ids s) (spdl s) (trk_pt s) (f (trk_pp s)) (env_check s).

(** [__init__]; [check_imshow(warn=True)] is the environment's answer
    [imshow_ok]. *)
Definition init (names0 : gmap Z string) (reg_pts0 : option (list point))
    (view_img0 : bool) (line_thickness : Z) (spdl_dist_thresh : Q)
    (imshow_ok : bool) : t :=
  {| view_img := view_img0;
     reg_pts := match reg_pts0 with
                | Some pts => pts
                | None => [(20 # 1, 400 # 1); (1260 # 1, 400 # 1)]%Q
                end;
     names := names0;
     tf := line_thickness;
     trk_history := ∅;
     current_time := 0%Q;
     spd := ∅;
     trkd_ids := [];
     spdl := spdl_dist_thresh;
     trk_pt := ∅;
     trk_pp := ∅;
     env_check := imshow_ok |}.

Inductive direction := Known | Unknown.

Definition is_unknown (d : direction) : bool :=
  match d with Unknown => true | Known => false end.

(** [self.trk_pt.get(trk_id) != 0]: a missing entry gives [None], which
    differs from 0. *)
Definition prev_time_nonzero (s : t) (trk_id : Z) : bool :=
  match trk_pt s !! trk_id with
  | None => true
  | Some v => negb (Qeq_bool v 0)
  end.

(** [self.m[k]] on the two dictionaries read by [calculate_speed]. *)
Definition read_trk_pt (trk_id : Z) : Py t Q :=
  fun s => match trk_pt s !! trk_id with
           | Some v => (s, Ok v)
           | None => (s, Raise (KeyError "trk_pt" trk_id))
           end.
Definition read_trk_pp (trk_id : Z) : Py t point :=
  fun s => match trk_pp s !! trk_id with
           | Some v => (s, Ok v)
           | None => (s, Raise (KeyError "trk_pp" trk_id))
           end.

(** Lines 65-70 of [calculate_speed]; [now1] is the reading of [time()]
    on line 68. *)
Definition finalize (trk_id : Z) (latest : point) (dir : direction) (now1 : Q) : Py t unit :=
  let* s := get in
  if prev_time_nonzero s trk_id && negb (is_unknown dir)
     && negb (bool_decide (trk_id ∈ trkd_ids s))
  then
    modify (set_trkd_ids (fun ids => ids ++ [trk_id])) ;;
    let* pt := read_trk_pt trk_id in
    let time_difference := (now1 - pt)%Q in
    if Qltb 0 time_difference then
      let* pp := read_trk_pp trk_id in
      modify (set_spd <[trk_id := (Qabs (snd latest - snd pp) / time_difference)%Q]>)
    else ret tt
  else ret tt.

(** Lines 58-63: is the latest y within [spdl] of one of the two reference
    points' y. *)
Definition band (s : t) (r0 r1 latest : point) : direction :=
  if Qltb (snd r1 - spdl s) (snd latest) && Qltb (snd latest) (snd r1 + spdl s) then Known
  else if Qltb (snd r0 - spdl s) (snd latest) && Qltb (snd latest) (snd r0 + spdl s) then Known
  else Unknown.

(** [calculate_speed(trk_id, track)]; [now2] is the reading of [time()]
    on line 72. *)
Definition calculate_speed (trk_id : Z) (track : list point) (now1 now2 : Q) : Py t unit :=
  let* s := get in
  let* r0 := index (reg_pts s) 0 in
  let* latest := index_last track in
  if negb (Qltb (fst r0) (fst latest)) then ret tt else
  let* r1 := index (reg_pts s) 1 in
  if negb (Qltb (fst latest) (fst r1)) then ret tt else
  let dir := band s r0 r1 latest in
  finalize trk_id latest dir now1 ;;
  modify (set_trk_pt <[trk_id := now2]>) ;;
  modify (set_trk_pp <[trk_id := latest]>).

(** One row of the tracker's result together with the two clock readings
    the call of [calculate_speed] for it would take. *)
Record detection := mkDet {
  d_box : box;
  d_id : Z;
  d_cls : Z;
  d_now1 : Q;
  d_now2 : Q
}.

(** A frame: [tracks[0].boxes] ([None] when [boxes.id is None]) and
    whether the display window reports the key q. *)
Record frame := mkFrame {
  f_dets : option (list detection);
  f_key_q : bool
}.

(** Integer values bound to names at module level of speed_estimation.py.
    The module binds its imports and the class (and, run as a script,
    [names] and [speed_estimator]); no integer, and no [track_id]. *)
Definition module_globals : gmap string Z := ∅.

(** Reading a name that is not a local of the function. *)
Definition load_global (name : string) : Py t Z :=
  match module_globals !! name with
  | Some v => ret v
  | None => raise (NameError name)
  end.

(** Line 110: the label of the box. *)
Definition speed_label (track_id trk_id cls : Z) : Py t unit :=
  let* s := get in
  if bool_decide (track_id ∈ dom (spd s)) then
    match spd s !! trk_id with
    | Some _ => ret tt
    | None => raise (KeyError "spd" trk_id)
    end
  else
    match names s !! cls with
    | Some _ => ret tt
    | None => raise (KeyError "names" cls)
    end.

(** The body of the loop of [estimate_speed], lines 98-116.  The loop
    variable is [trk_id]; lines 98 and 110 read [track_id]. *)
Definition track_detection (d : detection) : Py t unit :=
  let trk_id := d_id d in
  let* track_id := load_global "track_id" in
  let* s := get in
  let track := append_bounded (default [] (trk_history s !! track_id)) (bbox_center (d_box d)) in
  modify (set_trk_history <[track_id := track]>) ;;
  (if bool_decide (trk_id ∈ dom (trk_pt s)) then ret tt
   else modify (set_trk_pt <[trk_id := 0%Q]>)) ;;
  let* track_id' := load_global "track_id" in
  speed_label track_id' trk_id (d_cls d) ;;
  calculate_speed trk_id track (d_now1 d) (d_now2 d).

(** [estimate_speed(im0, tracks)].  [display_frames] is not a method of
    the class. *)
Definition estimate_speed (f : frame) : Py t returned :=
  let* s := get in
  match f_dets f with
  | None =>
      if view_img s && env_check s then raise (AttributeError "display_frames")
      else ret RetImage
  | Some dets =>
      for_each track_detection dets ;;
      if view_img s && env_check s && f_key_q f then ret RetNone
      else ret RetImage
  end.

(** A call on the public interface. *)
Inductive call :=
| CallCalculate (trk_id : Z) (track : list point) (now1 now2 : Q)
| CallEstimate (f : frame).

Definition step (c : call) (s : t) : t :=
  match c with
  | CallCalculate trk_id track now1 now2 => exec (calculate_speed trk_id track now1 now2) s
  | CallEstimate f => exec (estimate_speed f) s
  end.

(** The object after a sequence of calls, each exception being caught by
    the caller. *)
Definition run (cs : list call) (s : t) : t := fold_left (fun s c => step c s) cs s.

(** States a session can be in. *)
Inductive reachable : t -> Prop :=
| reach_init names0 reg_pts0 view_img0 lt thr ok :
    reachable (init names0 reg_pts0 view_img0 lt thr ok)
| reach_step s c : reachable s -> reachable (step c s).

(** Every stored speed belongs to a track of [trkd_ids]. *)
Definition finalized_inv (s : t) : Prop :=
  forall id, is_Some (spd s !! id) -> id ∈ trkd_ids s.

(** Every track with a sample time has a sample point. *)
Definition sample_inv (s : t) : Prop :=
  forall id, is_Some (trk_pt s !! id) -> is_Some (trk_pp s !! id).

(** No stored speed is negative. *)
Definition speeds_inv (s : t) : Prop :=
  forall id v, spd s !! id = Some v -> (0 <= v)%Q.

(** The latest point lies strictly between the x of the two reference
    points (line 56). *)
Definition in_region (r0 r1 latest : point) : Prop :=
  (fst r0 < fst latest)%Q /\ (fst latest < fst r1)%Q.

End SpeedEstimator.

(** ** heatmap.py *)

(** *** The geometry library (shapely) *)

(** The two kinds of region the class builds. *)
Inductive geom :=
| GLine (pts : list point)
| GPolygon (pts : list point).

(** A two-point line, [LineString([a, b])]. *)
Abbreviation segment := (point * point)%type.

(** The three tests the class asks of the library.  Their results are
    the library's business; the class only branches on them. *)
Class Geometry := {
  (** [region.contains(Point(p))] *)
  contains : geom -> point -> bool;
  (** [region.centroid.x] *)
  centroid_x : geom -> Q;
  (** [LineString([a, b]).intersects(LineString([c, d]))] *)
  intersects : segment -> segment -> bool
}.

(** The constructor [LineString(coords)] of shapely (the file requires
    shapely >= 2.0.0 on line 11): no coordinate gives the empty line, a
    single coordinate is refused with GEOSException, two or more give a
    line. *)
Definition LineString (pts : list point) : outcome geom :=
  match pts with
  | [_] => Raise GEOSException
  | _ => Ok (GLine pts)
  end.

(** [Polygon(coords)], called with at least three points only. *)
Definition Polygon (pts : list point) : geom := GPolygon pts.

Module Heatmap.

(** One row of the tracker's result: box, class and track id. *)
Record detection := mkDet {
  d_box : box;
  d_cls : Z;
  d_id : Z
}.

(** A frame: the image's height and width, [tracks[0].boxes] ([None] when
    [boxes.id is None]), and whether the display window reports the key q. *)
Record frame := mkFrame {
  f_height : nat;
  f_width : nat;
  f_dets : option (list detection);
  f_key_q : bool
}.

(** A per-class bucket [{"IN": n, "OUT": m}]. *)
Record bucket := mkBucket { b_in : Z; b_out : Z }.

(** The attributes of a [Heatmap] object the methods read or write. *)
Record t := mk {
  view_img : bool;
  initialized : bool;
  names : gmap Z string;
  heatmap : option (list (list Q));
  heatmap_alpha : Q;
  track_history : gmap Z (list point);
  counting_region : option geom;
  in_counts : Z;
  out_counts : Z;
  count_ids : list Z;
  class_wise_count : gmap string bucket;
  decay_factor : Q;
  env_check : bool;
  counting_line_segment : option segment;
  count_reg_pts : option (list point)
}.

(** Lines 99-100: the buffer is replaced and the object marked
    initialized. *)
Definition set_buffer (f : option (list (list Q)) -> option (list (list Q))) (s : t) : t :=
  mk (view_img s) true (names s) (f (heatmap s)) (heatmap_alpha s) (track_history s)
     (counting_region s) (in_counts s) (out_counts s) (count_ids s) (class_wise_count s)
     (decay_factor s) (env_check s) (counting_line_segment s) (count_reg_pts s).
(** Assignments to single attributes; [set_heatmap] updates the buffer in
    place. *)
Definition set_heatmap (f : list (list Q) -> list (list Q)) (s : t) : t :=
  mk (view_img s) (initialized s) (names s) (f <$> heatmap s) (heatmap_alpha s) (track_history s)
     (counting_region s) (in_counts s) (out_counts s) (count_ids s) (class_wise_count s)
     (decay_factor s) (env_check s) (counting_line_segment s) (count_reg_pts s).
Definition set_track_history (f : gmap Z (list point) -> gmap Z (list point)) (s : t) : t :=
  mk (view_img s) (initialized s) (names s) (heatmap s) (heatmap_alpha s) (f (track_history s))
     (counting_region s) (in_counts s) (out_counts s) (count_ids s) (class_wise_count s)
     (decay_factor s) (env_check s) (counting_line_segment s) (count_reg_pts s).
Definition set_in_counts (f : Z -> Z) (s : t) : t :=
  mk (view_img s) (initialized s) (names s) (heatmap s) (heatmap_alpha s) (track_history s)
     (counting_region s) (f (in_counts s)) (out_counts s) (count_ids s) (class_wise_count s)
     (decay_factor s) (env_check s) (counting_line_segment s) (count_reg_pts s).
Definition set_out_counts (f : Z -> Z) (s : t) : t :=
  mk (view_img s) (initialized s) (names s) (heatmap s) (heatmap_alpha s) (track_history s)
     (counting_region s) (in_counts s) (f (out_counts s)) (count_ids s) (class_wise_count s)
     (decay_factor s) (env_check s) (counting_line_segment s) (count_reg_pts s).
Definition set_count_ids (f : list Z -> list Z) (s : t) : t :=
  mk (view_img s) (initialized s) (names s) (heatmap s) (heatmap_alpha s) (track_history s)
     (counting_region s) (in_counts s) (out_counts s) (f (count_ids s)) (class_wise_count s)
     (decay_factor s) (env_check s) (counting_line_segment s) (count_reg_pts s).
Definition set_class_wise_count (f : gmap string bucket -> gmap string bucket) (s : t) : t :=
  mk (view_img s) (initialized s) (names s) (heatmap s) (heatmap_alpha s) (track_history s)
     (counting_region s) (in_counts s) (out_counts s) (count_ids s) (f (class_wise_count s))
     (decay_factor s) (env_check s) (counting_line_segment s) (count_reg_pts s).
(** Lines 71-85: the region, and the counting line when there is one. *)
Definition set_region (g : geom) (seg : option segment) (s : t) : t :=
  mk (view_img s) (initialized s) (names s) (heatmap s) (heatmap_alpha s) (track_history s)
     (Some g) (in_counts s) (out_counts s) (count_ids s) (class_wise_count s)
     (decay_factor s) (env_check s) seg (count_reg_pts s).

(** The attributes as set by lines 30-67 of [__init__]. *)
Definition blank (names0 : gmap Z string) (heatmap_alpha0 : Q) (view_img0 : bool)
    (count_reg_pts0 : option (list point)) (decay_factor0 : Q) (imshow_ok : bool) : t :=
  {| view_img := view_img0;
     initialized := false;
     names := names0;
     heatmap := None;
     heatmap_alpha := heatmap_alpha0;
     track_history := ∅;
     counting_region := None;
     in_counts := 0;
     out_counts := 0;
     count_ids := [];
     class_wise_count := ∅;
     decay_factor := decay_factor0;
     env_check := imshow_ok;
     counting_line_segment := None;
     count_reg_pts := count_reg_pts0 |}.

Definition msg_line : string := "Line Counter Initiated.".
Definition msg_polygon : string := "Polygon Counter Initiated.".
Definition msg_invalid : string :=
  "Invalid Region points provided, region_points must be 2 for lines or >= 3 for polygons.".
Definition msg_fallback : string := "Using Line Counter Now".

(** [__init__]: the lines printed, and the object or the exception that
    ends the construction. *)
Definition init (names0 : gmap Z string) (heatmap_alpha0 : Q) (view_img0 : bool)
    (count_reg_pts0 : option (list point)) (decay_factor0 : Q) (imshow_ok : bool)
    : list string * outcome t :=
  let s := blank names0 heatmap_alpha0 view_img0 count_reg_pts0 decay_factor0 imshow_ok in
  match count_reg_pts0 with
  | None => ([], Ok s)
  | Some pts =>
      if (Z.of_nat (length pts) =? 2) then
        ([msg_line],
         match LineString pts, pts with
         | Ok g, [p0; p1] => Ok (set_region g (Some (p0, p1)) s)
         | Ok g, _ => Raise IndexError
         | Raise e, _ => Raise e
         end)
      else if (3 <=? Z.of_nat (length pts)) then
        ([msg_polygon], Ok (set_region (Polygon pts) None s))
      else
        ([msg_invalid; msg_fallback],
         match LineString pts with
         | Ok g => Ok (set_region g None s)
         | Raise e => Raise e
         end)
  end.

(** *** The density buffer *)

(** [np.zeros((h, w))]. *)
Definition zeros (h w : nat) : list (list Q) := replicate h (replicate w 0%Q).

(** [self.heatmap *= self.decay_factor]. *)
Definition decay (k : Q) (hm : list (list Q)) : list (list Q) :=
  map (map (fun v => (v * k)%Q)) hm.

(** A slice bound [v] on an axis of length [n], as Python normalises it. *)
Definition slice_bound (n v : Z) : Z :=
  if v <? 0 then Z.max (v + n) 0 else Z.min v n.

(** Does index [i] fall in [lo:hi] on an axis of length [n]. *)
Definition in_slice (n : Z) (lo hi : Z) (i : Z) : bool :=
  (slice_bound n lo <=? i) && (i <? slice_bound n hi).

(** Lines 123-131 (and 178-186): add 2 to the cells of the box that lie
    in the disk around the box centre. *)
Definition add_heat (b : box) (hm : list (list Q)) : list (list Q) :=
  let height := Z.of_nat (length hm) in
  let cx := Qfloor ((bx0 b + bx1 b) / 2) in
  let cy := Qfloor ((by0 b + by1 b) / 2) in
  let radius := Z.min (py_int (bx1 b) - py_int (bx0 b)) (py_int (by1 b) - py_int (by0 b)) `div` 2 in
  imap (fun y row =>
    let width := Z.of_nat (length row) in
    imap (fun x v =>
      let mask := ((Z.of_nat x - cx) ^ 2 + (Z.of_nat y - cy) ^ 2 <=? radius ^ 2) in
      if in_slice height (py_int (by0 b)) (py_int (by1 b)) (Z.of_nat y)
         && in_slice width (py_int (bx0 b)) (py_int (bx1 b)) (Z.of_nat x)
         && mask
      then (v + 2)%Q else v) row) hm.

(** *** Counting *)

Section Counting.
Context `{G : Geometry}.

(** [self.names[cls]]. *)
Definition class_label (cls : Z) : Py t string :=
  fun s => match names s !! cls with
           | Some l => (s, Ok l)
           | None => (s, Raise (KeyError "names" cls))
           end.

(** [self.class_wise_count[label]["IN"] += 1] and its OUT twin. *)
Definition bump (f : bucket -> bucket) (label : string) : Py t unit :=
  fun s => match class_wise_count s !! label with
           | Some b => (set_class_wise_count <[label := f b]> s, Ok tt)
           | None => (s, Raise (KeyErrorStr "class_wise_count" label))
           end.
Definition bump_in (b : bucket) : bucket := mkBucket (b_in b + 1) (b_out b).
Definition bump_out (b : bucket) : bucket := mkBucket (b_in b) (b_out b + 1).

(** The sign test of lines 149 and 166-169. *)
Definition moves_in (b : box) (prev_position : point) (region : geom) : bool :=
  Qltb 0 ((bx0 b - fst prev_position) * (centroid_x region - fst prev_position))%Q.

(** Lines 147-154 and 163-174: remember the track and count it IN or
    OUT. *)
Definition record_count (d : detection) (label : string) (prev_position : point)
    (region : geom) : Py t unit :=
  modify (set_count_ids (fun ids => ids ++ [d_id d])) ;;
  if moves_in (d_box d) prev_position region then
    modify (set_in_counts (fun n => n + 1)) ;;
    bump bump_in label
  else
    modify (set_out_counts (fun n => n + 1)) ;;
    bump bump_out label.

(** The movement segment of line 160. *)
Definition movement (prev_position : point) (b : box) : segment :=
  (prev_position, (bx0 b, by0 b)).

(** [self.counting_region] and [self.counting_line_segment], set by
    [__init__] whenever region points were given. *)
Definition the_region : Py t geom :=
  fun s => match counting_region s with
           | Some g => (s, Ok g)
           | None => (s, Raise (AttributeError "centroid"))
           end.
Definition the_line : Py t segment :=
  fun s => match counting_line_segment s with
           | Some l => (s, Ok l)
           | None => (s, Raise TypeError)
           end.

(** Lines 141-174. *)
Definition count_crossing (d : detection) (label : string) (track_line : list point)
    (prev_position : option point) : Py t unit :=
  let* s := get in
  match count_reg_pts s with
  | None => ret tt
  | Some pts =>
      if (3 <=? Z.of_nat (length pts)) then
        let* region := the_region in
        let* current := index_last track_line in
        let is_inside := contains region current in
        match prev_position with
        | Some prev =>
            if is_inside && negb (bool_decide (d_id d ∈ count_ids s))
            then record_count d label prev region
            else ret tt
        | None => ret tt
        end
      else if (Z.of_nat (length pts) =? 2) then
        match prev_position with
        | Some prev =>
            if negb (bool_decide (d_id d ∈ count_ids s)) then
              let* line := the_line in
              if intersects (movement prev (d_box d)) line then
                let* region := the_region in
                record_count d label prev region
              else ret tt
            else ret tt
        | None => ret tt
        end
      else ret tt
  end.

(** The body of the loop over tracked detections, lines 119-174. *)
Definition track_detection (d : detection) : Py t unit :=
  let* label := class_label (d_cls d) in
  let* s := get in
  (if bool_decide (label ∈ dom (class_wise_count s)) then ret tt
   else modify (set_class_wise_count <[label := mkBucket 0 0]>)) ;;
  modify (set_heatmap (add_heat (d_box d))) ;;
  let track_line :=
    append_bounded (default [] (track_history s !! d_id d)) (bbox_center (d_box d)) in
  modify (set_track_history <[d_id d := track_line]>) ;;
  let prev_position :=
    if (1 <? Z.of_nat (length track_line)) then index_last2 track_line else None in
  count_crossing d label track_line prev_position.

(** Lines 177-186: heat for boxes without track ids. *)
Definition untracked_heat (d : detection) : Py t unit :=
  modify (set_heatmap (add_heat (d_box d))).

(** [if track_ids:] is taken for a list that is neither [None] nor empty. *)
Definition truthy {A} (xs : option (list A)) : bool :=
  match xs with
  | Some (_ :: _) => true
  | _ => false
  end.

(** Iterating [zip(boxes, clss, ...)]: [boxes] is [None] when the frame
    carries no ids. *)
Definition iterate (body : detection -> Py t unit) (dets : option (list detection)) : Py t unit :=
  match dets with
  | Some ds => for_each body ds
  | None => raise TypeError
  end.

(** [generate_heatmap(im0, tracks)]. *)
Definition generate_heatmap (f : frame) : Py t returned :=
  let* s := get in
  (if initialized s then ret tt
   else modify (set_buffer (fun _ => Some (zeros (f_height f) (f_width f))))) ;;
  modify (fun s => set_heatmap (decay (decay_factor s)) s) ;;
  (if truthy (f_dets f) then iterate track_detection (f_dets f)
   else iterate untracked_heat (f_dets f)) ;;
  if env_check s && view_img s && f_key_q f then ret RetNone else ret RetImage.

(** The session after a sequence of frames, each exception being caught
    by the caller. *)
Definition run (fs : list frame) (s : t) : t :=
  fold_left (fun s f => exec (generate_heatmap f) s) fs s.

(** States a session can be in. *)
Inductive reachable : t -> Prop :=
| reach_init names0 alpha view pts k ok s :
    snd (init names0 alpha view pts k ok) = Ok s -> reachable s
| reach_frame s f : reachable s -> reachable (exec (generate_heatmap f) s).

End Counting.

(** *** Vocabulary for the properties of a session *)

Section Vocabulary.
Context `{G : Geometry}.

(** The per-class counters read with a default of zero. *)
Definition counts_of (m : gmap string bucket) (label : string) : bucket :=
  default (mkBucket 0 0) (m !! label).

(** The history of a track before a detection is processed. *)
Definition history_of (s : t) (id : Z) : list point :=
  default [] (track_history s !! id).

(** The object when line 139 has run for detection [d] of class [label]:
    bucket created, heat added, history updated. *)
Definition prepared (s : t) (d : detection) (label : string) : t :=
  set_track_history
    <[d_id d := append_bounded (history_of s (d_id d)) (bbox_center (d_box d))]>
    (set_heatmap (add_heat (d_box d))
       (if bool_decide (label ∈ dom (class_wise_count s)) then s
        else set_class_wise_count <[label := mkBucket 0 0]> s)).

(** Every counted track is listed once, and the totals count the list. *)
Definition counted_inv (s : t) : Prop :=
  NoDup (count_ids s) /\
  in_counts s + out_counts s = Z.of_nat (length (count_ids s)).

(** No history is longer than 30. *)
Definition history_inv (s : t) : Prop :=
  forall id l, track_history s !! id = Some l -> (length l <= 30)%nat.

(** The detections of a frame. *)
Definition dets_of (f : frame) : list detection := default [] (f_dets f).

(** The totals, the counted list and every per-class counter agree. *)
Definition same_counters (s s' : t) : Prop :=
  in_counts s' = in_counts s /\
  out_counts s' = out_counts s /\
  count_ids s' = count_ids s /\
  forall label, counts_of (class_wise_count s') label = counts_of (class_wise_count s) label.

(** The object once a crossing is recorded IN, and OUT. *)
Definition counted_in (s : t) (id : Z) (label : string) (b : bucket) : t :=
  set_class_wise_count <[label := bump_in b]>
    (set_in_counts (fun n => n + 1) (set_count_ids (fun ids => ids ++ [id]) s)).
Definition counted_out (s : t) (id : Z) (label : string) (b : bucket) : t :=
  set_class_wise_count <[label := bump_out b]>
    (set_out_counts (fun n => n + 1) (set_count_ids (fun ids => ids ++ [id]) s)).

(** A detection of an uncounted track with a previous position [prev]
    qualifies in polygon mode when its new centre is inside the region, in
    line mode when its movement segment meets the counting line. *)
Definition qualifies (s : t) (d : detection) (prev : point) (region : geom) : Prop :=
  (d_id d ∉ count_ids s) /\
  counting_region s = Some region /\
  exists pts, count_reg_pts s = Some pts /\
    (((3 <= length pts)%nat /\ contains region (bbox_center (d_box d)) = true) \/
     (length pts = 2%nat /\
      exists line, counting_line_segment s = Some line /\
                   intersects (movement prev (d_box d)) line = true)).

(** The region attributes [__init__] sets for the given points. *)
Definition region_inv (s : t) : Prop :=
  forall pts, count_reg_pts s = Some pts ->
    ((3 <= length pts)%nat -> is_Some (counting_region s)) /\
    (length pts = 2%nat ->
       is_Some (counting_region s) /\ is_Some (counting_line_segment s)).

(** What a frame never changes. *)
Definition same_setup (s s' : t) : Prop :=
  names s' = names s /\ count_reg_pts s' = count_reg_pts s /\
  counting_region s' = counting_region s /\
  counting_line_segment s' = counting_line_segment s.


(** The IN and the OUT counters summed over the classes. *)
Definition sum_in (m : gmap string bucket) : Z :=
  map_fold (fun _ b acc => b_in b + acc) 0 m.
Definition sum_out (m : gmap string bucket) : Z :=
  map_fold (fun _ b acc => b_out b + acc) 0 m.

(** The per-class counters add up to the totals. *)
Definition class_sums_inv (s : t) : Prop :=
  sum_in (class_wise_count s) = in_counts s /\
  sum_out (class_wise_count s) = out_counts s.

(** The row lengths of a buffer. *)
Definition shape (hm : list (list Q)) : list nat := map length hm.


(** Counters that only went up from [s] to [s']: the totals, the counted
    list (extended at its end) and each per-class counter. *)
Definition grows (s s' : t) : Prop :=
  in_counts s <= in_counts s' /\
  out_counts s <= out_counts s' /\
  count_ids s `prefix_of` count_ids s' /\
  forall label,
    b_in (counts_of (class_wise_count s) label) <= b_in (counts_of (class_wise_count s') label) /\
    b_out (counts_of (class_wise_count s) label) <= b_out (counts_of (class_wise_count s') label).

(** Every recorded history holds at least one position. *)
Definition history_nonempty (s : t) : Prop :=
  forall id l, track_history s !! id = Some l -> l <> [].

(** The object when the loops of [generate_heatmap] start: buffer
    allocated if need be, then decayed. *)
Definition decayed (f : frame) (s : t) : t :=
  let s1 := if initialized s then s
            else set_buffer (fun _ => Some (zeros (f_height f) (f_width f))) s in
  set_heatmap (decay (decay_factor s1)) s1.

(** The loop a frame runs. *)
Definition frame_loop (f : frame) : Py t unit :=
  if truthy (f_dets f) then iterate track_detection (f_dets f)
  else iterate untracked_heat (f_dets f).

End Vocabulary.

End Heatmap.

(** *** A reference plane geometry for the concrete scenarios

    Exact tests over the rationals: segment intersection by orientation
    (touching counts), strict point-in-polygon by crossing number, the
    midpoint of a two-point line and the area centroid of a polygon. *)

Module Plane.

Definition cross (a b c : point) : Q :=
  ((fst b - fst a) * (snd c - snd a) - (snd b - snd a) * (fst c - fst a))%Q.

Definition orient (a b c : point) : comparison := (cross a b c ?= 0)%Q.

Definition cmp_eqb (x y : comparison) : bool :=
  match x, y with
  | Eq, Eq | Lt, Lt | Gt, Gt => true
  | _, _ => false
  end.

Definition between (u v w : Q) : bool :=
  (Qle_bool u w && Qle_bool w v) || (Qle_bool v w && Qle_bool w u).

(** [c] lies on the closed segment [a b]. *)
Definition on_segment (a b c : point) : bool :=
  cmp_eqb (orient a b c) Eq && between (fst a) (fst b) (fst c)
  && between (snd a) (snd b) (snd c).

Definition seg_intersects (s1 s2 : segment) : bool :=
  let '(a, b) := s1 in
  let '(c, d) := s2 in
  (negb (cmp_eqb (orient a b c) (orient a b d))
   && negb (cmp_eqb (orient c d a) (orient c d b)))
  || on_segment a b c || on_segment a b d || on_segment c d a || on_segment c d b.

(** The edges of the ring through [pts], closed back to its first point. *)
Definition edges (pts : list point) : list segment :=
  match pts with
  | [] => []
  | p :: rest => zip pts (rest ++ [p])
  end.

Definition crosses_ray (p : point) (e : segment) : bool :=
  let '(a, b) := e in
  negb (Bool.eqb (Qltb (snd p) (snd a)) (Qltb (snd p) (snd b)))
  && Qltb (fst p) ((fst b - fst a) * (snd p - snd a) / (snd b - snd a) + fst a)%Q.

Definition inside (pts : list point) (p : point) : bool :=
  negb (existsb (fun e => on_segment (fst e) (snd e) p) (edges pts))
  && Nat.odd (length (filter (fun e => crosses_ray p e = true) (edges pts))).

Definition shoelace (e : segment) : Q :=
  (fst (fst e) * snd (snd e) - fst (snd e) * snd (fst e))%Q.

Definition Qsum (xs : list Q) : Q := foldr Qplus 0%Q xs.

Definition polygon_centroid_x (pts : list point) : Q :=
  (Qsum (map (fun e => (fst (fst e) + fst (snd e)) * shoelace e) (edges pts))
   / (3 * Qsum (map shoelace (edges pts))))%Q.

#[export] Instance geometry : Geometry := {|
  contains g p := match g with GPolygon pts => inside pts p | GLine _ => false end;
  centroid_x g :=
    match g with
    | GPolygon pts => polygon_centroid_x pts
    | GLine [a; b] => ((fst a + fst b) / 2)%Q
    | GLine _ => 0%Q
    end;
  intersects := seg_intersects
|}.

End Plane.
(** ** Concrete sessions used to exercise the properties *)

Module SpeedScenario.
Import SpeedEstimator.

(** [SpeedEstimator(names)] with the default band [(20,400)-(1260,400)]
    and threshold 10. *)
Definition fresh : t :=
  init {[ 0 := "person"; 1 := "car" ]} None false 2 (10 # 1) false.

Definition track_a : list point := [(100 # 1, 300 # 1)]%Q.
Definition track_b : list point := track_a ++ [(100 # 1, 395 # 1)]%Q.
Definition track_c : list point := track_b ++ [(100 # 1, 405 # 1)]%Q.

(** Track 1 is first sampled outside the band at time 5. *)
Definition sampled : t := exec (calculate_speed 1 track_a (5 # 1) (5 # 1)) fresh.

(** ... then enters the band while the clock still reads 5. *)
Definition stalled : t := exec (calculate_speed 1 track_b (5 # 1) (5 # 1)) sampled.

(** ... or enters the band at time 6. *)
Definition measured : t := exec (calculate_speed 1 track_b (6 # 1) (6 # 1)) sampled.

(** One tracked person. *)
Definition one_person : frame :=
  mkFrame (Some [mkDet (mkBox (90 # 1) (380 # 1) (110 # 1) (420 # 1)) 1 0 (7 # 1) (7 # 1)]%Q) false.

End SpeedScenario.

Module HeatScenario.
Import Heatmap Plane.

Definition class_names : gmap Z string := {[ 0 := "person"; 1 := "car" ]}.

(** The session [init] builds, or a blank one if construction failed. *)
Definition built (r : list string * outcome t) : t :=
  match snd r with
  | Ok s => s
  | Raise _ => blank class_names (1 # 2) false None (99 # 100) false
  end.

(** [Heatmap(names, count_reg_pts=[(0, 100), (200, 100)])]. *)
Definition line_pts : list point := [(0 # 1, 100 # 1); (200 # 1, 100 # 1)]%Q.
Definition line_session : t :=
  built (init class_names (1 # 2) false (Some line_pts) (99 # 100) false).

(** [Heatmap(names, count_reg_pts=[(0,0), (10,0), (10,10), (0,10)])]. *)
Definition square_pts : list point :=
  [(0 # 1, 0 # 1); (10 # 1, 0 # 1); (10 # 1, 10 # 1); (0 # 1, 10 # 1)]%Q.
Definition square_session : t :=
  built (init class_names (1 # 2) false (Some square_pts) (99 # 100) false).

(** [Heatmap(names)]: no counting region. *)
Definition plain_session : t :=
  built (init class_names (1 # 2) false None (1 # 2) false).

(** [Heatmap(names, count_reg_pts=[])]. *)
Definition empty_region_session : t :=
  built (init class_names (1 # 2) false (Some []) (99 # 100) false).

(** A 240 x 320 frame holding one tracked person (track 1) in box [b]. *)
Definition person_at (b : box) : frame :=
  mkFrame 240 320 (Some [mkDet b 0 1]) false.



(** Track 1 below the line, its box reaching down from y = 90 to 130. *)
Definition box_low : box := mkBox (50 # 1) (90 # 1) (70 # 1) (130 # 1).
(** The same box moved down by 15: its top-left corner crosses y = 100,
    its centre was already below the line. *)
Definition box_lower : box := mkBox (50 # 1) (105 # 1) (70 # 1) (145 # 1).
(** A small box above the line, to the left of the previous centre. *)
Definition box_high : box := mkBox (50 # 1) (92 # 1) (70 # 1) (96 # 1).

(** A small box above the line whose centre has moved right by 10, its
    left edge standing at the previous centre's x. *)
Definition box_right : box := mkBox (60 # 1) (92 # 1) (80 # 1) (96 # 1).

(** A box centred at (5, -5), outside the square, and one centred at
    (5, 5), inside. *)
Definition box_outside : box := mkBox (3 # 1) (-7 # 1) (7 # 1) (-3 # 1).
Definition box_inside : box := mkBox (3 # 1) (3 # 1) (7 # 1) (7 # 1).

(** Track 1 seen once below the line. *)
Definition seen_once : t := exec (generate_heatmap (person_at box_low)) line_session.

(** Track 1 seen once outside the square. *)
Definition seen_outside : t :=
  exec (generate_heatmap (person_at box_outside)) square_session.

(** Track 1 counted on the line. *)
Definition counted_once : t :=
  run [person_at box_low; person_at box_high] line_session.



End HeatScenario.

(** ** Two statements about crossings, as worded

    Kept apart from the code's definitions, to compare the two. *)

Module Worded.

(** The direction test with the track's current position: is
    [(current.x - previous.x) * (region_centroid.x - previous.x)] strictly
    positive. *)
Definition moves_in (current previous : point) (region_centroid_x : Q) : bool :=
  Qltb 0 ((fst current - fst previous) * (region_centroid_x - fst previous))%Q.

(** The movement segment between the [box[0]] corners of the previous and
    of the current box. *)
Definition movement (previous_box current_box : box) : segment :=
  ((bx0 previous_box, by0 previous_box), (bx0 current_box, by0 current_box)).

End Worded.
(** * Properties *)

Lemma Qltb_lt a b : Qltb a b = true <-> (a < b)%Q.
Proof.
  unfold Qltb. rewrite negb_true_iff.
  split.
  - intros H. apply Qnot_le_lt. intros Hle.
    apply Qle_bool_iff in Hle. congruence.
  - intros H. destruct (Qle_bool b a) eqn:E; [|done].
    apply Qle_bool_iff in E. exfalso. eapply Qlt_not_le; eauto.
Qed.

Lemma Qltb_ge a b : Qltb a b = false <-> (b <= a)%Q.
Proof.
  unfold Qltb. rewrite negb_false_iff. apply Qle_bool_iff.
Qed.


(** A property kept by every iteration is kept by the loop, whether or
    not it ends in an exception. *)
Lemma for_each_inv {S X} (P : S -> Prop) (body : X -> Py S unit) (xs : list X) :
  (forall x s, x ∈ xs -> P s -> P (exec (body x) s)) ->
  forall s, P s -> P (exec (for_each body xs) s).
Proof.
  induction xs as [|x xs IH]; intros Hbody s Hs; [done|].
  unfold exec in *. simpl. unfold bind.
  assert (P (fst (body x s))) as Hx by (apply Hbody; [left | done]).
  destruct (body x s) as [s1 [[]|e]]; simpl in *; [|done].
  apply IH; [|done]. intros y s' Hy. apply Hbody. by right.
Qed.

(** A loop whose iterations all return, and keep the property that makes
    them return, returns. *)
Lemma for_each_ok {S X} (P : S -> Prop) (body : X -> Py S unit) (xs : list X) :
  (forall x s, x ∈ xs -> P s -> result (body x) s = Ok tt /\ P (exec (body x) s)) ->
  forall s, P s -> result (for_each body xs) s = Ok tt.
Proof.
  induction xs as [|x xs IH]; intros Hbody s Hs; [done|].
  unfold exec, result in *. simpl. unfold bind.
  destruct (Hbody x s) as [Hres Hx]; [left | done |].
  destruct (body x s) as [s1 [[]|e]]; simpl in *; [|done].
  apply IH; [|done]. intros y s' Hy. apply Hbody. by right.
Qed.

(** *** The bounded history *)

(** Split on the test [30 < len(track)] of the history update. *)
Ltac split_bound :=
  match goal with
  | |- context [(?a <? ?b)%Z] => destruct (Z.ltb_spec a b)
  end.

Lemma append_bounded_length track c :
  (length track <= 30)%nat -> (length (append_bounded track c) <= 30)%nat.
Proof.
  intros H. unfold append_bounded.
  assert (length (track ++ [c]) = S (length track)) as Hlen
    by (rewrite length_app; simpl; lia).
  split_bound.
  - destruct (track ++ [c]); simpl in *; lia.
  - lia.
Qed.

Lemma append_bounded_room track c :
  (length track < 30)%nat -> append_bounded track c = track ++ [c].
Proof.
  intros H. unfold append_bounded. rewrite length_app. simpl.
  split_bound; [lia | done].
Qed.

Lemma append_bounded_full x track c :
  length (x :: track) = 30%nat -> append_bounded (x :: track) c = track ++ [c].
Proof.
  intros H. unfold append_bounded. rewrite length_app. simpl in *.
  split_bound; [done | lia].
Qed.

Lemma append_bounded_last track c :
  last (append_bounded track c) = Some c.
Proof.
  unfold append_bounded. split_bound.
  - destruct track as [|x track]; simpl in *; [lia|]. apply last_snoc.
  - apply last_snoc.
Qed.

Lemma index_last2_snoc {A} (l : list A) (x y : A) :
  index_last2 (l ++ [x; y]) = Some x.
Proof. unfold index_last2. by rewrite rev_app_distr. Qed.

(** After the update, [track[-2]] is the position recorded last before
    it, and there is none for a new track. *)
Lemma append_bounded_previous track c :
  (if (1 <? Z.of_nat (length (append_bounded track c)))
   then index_last2 (append_bounded track c) else None) = last track.
Proof.
  destruct (decide (track = [])) as [->|Hne]; [done|].
  destruct (exists_last Hne) as (l & p & ->).
  rewrite last_snoc. unfold append_bounded.
  rewrite <- app_assoc. simpl.
  destruct (Z.ltb_spec 30 (Z.of_nat (length (l ++ [p; c])))) as [Hbig|Hsmall].
  - destruct l as [|q l]; simpl in *; [lia|].
    rewrite length_app. simpl.
    destruct (Z.ltb_spec 1 (Z.of_nat (length l + 2))); [|lia].
    apply index_last2_snoc.
  - rewrite length_app. simpl.
    destruct (Z.ltb_spec 1 (Z.of_nat (length l + 2))); [|lia].
    apply index_last2_snoc.
Qed.
(** ** Properties of speed_estimation.py *)

Module SpeedEstimatorFacts.
Import SpeedEstimator.

(** *** Effects of one call of [calculate_speed] *)

Ltac py_unfold :=
  unfold calculate_speed, finalize, read_trk_pt, read_trk_pp, index, index_last,
    bind, get, modify, ret, raise, exec, result in *.

(** A track already in [trkd_ids] stays there and keeps whatever [spd]
    holds for it, whichever track the call is for. *)
Lemma calculate_speed_frozen s id trk_id track now1 now2 :
  id ∈ trkd_ids s ->
  let s' := exec (calculate_speed trk_id track now1 now2) s in
  spd s' !! id = spd s !! id /\ id ∈ trkd_ids s'.
Proof.
  intros Hin. py_unfold.
  repeat (case_match; simplify_eq/=); try done.
  all: try (split; [|set_solver]).
  all: try done.
  all: destruct (decide (trk_id = id)) as [->|Hne];
    [ rewrite ?andb_true_iff, ?negb_true_iff, ?bool_decide_eq_false in *; tauto
    | by rewrite lookup_insert_ne ].
Qed.

Lemma calculate_speed_inv s trk_id track now1 now2 :
  finalized_inv s -> finalized_inv (exec (calculate_speed trk_id track now1 now2) s).
Proof.
  intros Hinv id. py_unfold.
  repeat (case_match; simplify_eq/=); try (by apply Hinv).
  all: try (intros Hs; apply Hinv in Hs; set_solver).
  all: destruct (decide (trk_id = id)) as [->|Hne];
    [ set_solver | rewrite lookup_insert_ne by done; intros Hs; apply Hinv in Hs; set_solver ].
Qed.

Lemma load_global_track_id (s : t) :
  load_global "track_id" s = (s, Raise (NameError "track_id")).
Proof. reflexivity. Qed.

(** The loop body stops at its first statement. *)
Lemma track_detection_raises d s :
  track_detection d s = (s, Raise (NameError "track_id")).
Proof. unfold track_detection, bind. by rewrite load_global_track_id. Qed.

(** [estimate_speed] leaves the object as it found it, on every frame. *)
Lemma estimate_speed_state f s : exec (estimate_speed f) s = s.
Proof.
  unfold estimate_speed, exec, bind, get. simpl.
  destruct (f_dets f) as [[|d ds]|]; simpl.
  - unfold ret. by repeat case_match.
  - unfold bind. by rewrite track_detection_raises.
  - unfold raise, ret. by case_match.
Qed.

Lemma step_inv c s : finalized_inv s -> finalized_inv (step c s).
Proof.
  destruct c; simpl.
  - apply calculate_speed_inv.
  - by rewrite estimate_speed_state.
Qed.

Lemma reachable_inv s : reachable s -> finalized_inv s.
Proof.
  induction 1 as [|s c _ IH].
  - intros id [v Hv]. simpl in Hv. by rewrite lookup_empty in Hv.
  - by apply step_inv.
Qed.

Lemma step_frozen c s id :
  id ∈ trkd_ids s -> spd (step c s) !! id = spd s !! id /\ id ∈ trkd_ids (step c s).
Proof.
  intros Hin. destruct c; simpl.
  - by apply calculate_speed_frozen.
  - by rewrite estimate_speed_state.
Qed.

Lemma run_frozen cs s id :
  id ∈ trkd_ids s -> spd (run cs s) !! id = spd s !! id /\ id ∈ trkd_ids (run cs s).
Proof.
  revert s. induction cs as [|c cs IH]; intros s Hin; [done|].
  simpl. destruct (step_frozen c s id Hin) as [Hspd Hin'].
  destruct (IH _ Hin') as [-> ?]. by rewrite Hspd.
Qed.

Lemma calls_reachable cs s : reachable s -> reachable (run cs s).
Proof.
  revert s. induction cs as [|c cs IH]; intros s Hs; [done|].
  simpl. apply IH. by constructor.
Qed.

(** No call touches the history map of the speed estimator. *)
Lemma calculate_speed_history s trk_id track now1 now2 :
  trk_history (exec (calculate_speed trk_id track now1 now2) s) = trk_history s.
Proof. py_unfold. by repeat (case_match; simplify_eq/=). Qed.

(** *** The per-frame entry point *)

(** C1 (code defect).  The claim asks that [estimate_speed] return the
    image on every frame with at least one tracked detection.  The first
    statement of the loop body reads the unbound name [track_id] (the loop
    variable is [trk_id]), so on every such frame, from every state, the
    call raises NameError and leaves the object untouched. *)
Theorem estimate_speed_raises_on_tracked_frame s d ds q :
  estimate_speed (mkFrame (Some (d :: ds)) q) s = (s, Raise (NameError "track_id")).
Proof.
  unfold estimate_speed, bind, get. simpl.
  unfold bind. by rewrite track_detection_raises.
Qed.

(** C9 (code defect, speed estimator side).  The claim asks that every
    per-frame update append the new centroid to the track's history.  In
    the speed estimator no call ever stores a centroid: whatever calls a
    session has seen, frames with tracked detections included, its history
    map is empty. *)
Theorem speed_history_never_recorded s :
  reachable s -> trk_history s = ∅.
Proof.
  induction 1 as [|s c _ IH]; [done|].
  destruct c; simpl.
  - by rewrite calculate_speed_history.
  - by rewrite estimate_speed_state.
Qed.

Lemma speed_history_never_recorded_witness :
  trk_history (step (CallEstimate SpeedScenario.one_person) SpeedScenario.fresh) = ∅.
Proof.
  apply speed_history_never_recorded.
  apply reach_step. unfold SpeedScenario.fresh. apply reach_init.
Defined.

(** *** Speed samples *)

(** C8.  Once [spd[trk_id]] holds a value, no later call on the object,
    for this track or another, changes it. *)
Theorem spd_finalized_once s id v :
  reachable s -> spd s !! id = Some v ->
  forall cs, spd (run cs s) !! id = Some v.
Proof.
  intros Hs Hv cs.
  assert (id ∈ trkd_ids s) as Hin by (apply (reachable_inv s Hs); eauto).
  destruct (run_frozen cs s id Hin) as [-> _]. done.
Qed.

Lemma spd_finalized_once_witness :
  spd (run [CallCalculate 1 SpeedScenario.track_c (8 # 1) (8 # 1);
            CallEstimate SpeedScenario.one_person;
            CallCalculate 1 SpeedScenario.track_c (9 # 1) (9 # 1)]
           SpeedScenario.measured) !! 1 = Some (Qabs ((395 # 1) - (300 # 1)) / ((6 # 1) - (5 # 1)))%Q.
Proof.
  apply spd_finalized_once.
  - unfold SpeedScenario.measured, SpeedScenario.sampled, SpeedScenario.fresh.
    apply (reach_step _ (CallCalculate _ _ _ _)).
    apply (reach_step _ (CallCalculate _ _ _ _)).
    apply reach_init.
  - vm_compute. reflexivity.
Defined.

(** What one call does when the guard of line 65 passes and the previous
    sample time is known. *)
Lemma finalize_guard_passes s trk_id latest r0 r1 pt now1 :
  band s r0 r1 latest = Known ->
  trk_pt s !! trk_id = Some pt -> ~ (pt == 0)%Q ->
  trk_id ∉ trkd_ids s ->
  finalize trk_id latest (band s r0 r1 latest) now1 s =
    (let s1 := set_trkd_ids (fun ids => ids ++ [trk_id]) s in
     if Qltb 0 (now1 - pt) then
       match trk_pp s !! trk_id with
       | Some pp => (set_spd <[trk_id := (Qabs (snd latest - snd pp) / (now1 - pt))%Q]> s1, Ok tt)
       | None => (s1, Raise (KeyError "trk_pp" trk_id))
       end
     else (s1, Ok tt)).
Proof.
  intros Hband Hpt Hnz Hnew.
  unfold finalize, bind, get, modify, read_trk_pt, read_trk_pp, ret.
  rewrite Hband. unfold prev_time_nonzero. rewrite Hpt. simpl.
  assert (Qeq_bool pt 0 = false) as ->.
  { destruct (Qeq_bool pt 0) eqn:E; [|done]. by apply Qeq_bool_iff in E. }
  rewrite bool_decide_eq_false_2 by done. simpl. rewrite Hpt.
  destruct (Qltb 0 (now1 - pt)); [|done].
  simpl. by destruct (trk_pp s !! trk_id).
Qed.

Lemma calculate_speed_in_region s trk_id track latest r0 r1 now1 now2 :
  reg_pts s !! 0%nat = Some r0 -> reg_pts s !! 1%nat = Some r1 ->
  last track = Some latest ->
  (fst r0 < fst latest)%Q -> (fst latest < fst r1)%Q ->
  calculate_speed trk_id track now1 now2 s =
    (finalize trk_id latest (band s r0 r1 latest) now1 ;;
     modify (set_trk_pt <[trk_id := now2]>) ;;
     modify (set_trk_pp <[trk_id := latest]>)) s.
Proof.
  intros H0 H1 Hl Hlo Hhi.
  apply Qltb_lt in Hlo, Hhi.
  unfold calculate_speed, index, index_last.
  unfold bind at 1. unfold get at 1. cbv beta iota. rewrite H0.
  unfold bind at 1. unfold ret at 1. cbv beta iota. rewrite Hl.
  unfold bind at 1. unfold ret at 1. cbv beta iota. rewrite Hlo.
  cbv [negb]. rewrite H1.
  unfold bind at 1. unfold ret at 1. cbv beta iota. rewrite Hhi. done.
Qed.

(** C5 (as the code has it).  When the guarded sample finds a time delta
    that is not positive, the call returns normally and stores no speed,
    but the track has been appended to [trkd_ids] before the delta was
    looked at: the sample time and position are refreshed, and no later
    call stores a speed for this track. *)
Theorem calculate_speed_stalled_sample s trk_id track latest r0 r1 pt now1 now2 :
  reg_pts s !! 0%nat = Some r0 -> reg_pts s !! 1%nat = Some r1 ->
  last track = Some latest ->
  (fst r0 < fst latest)%Q -> (fst latest < fst r1)%Q ->
  band s r0 r1 latest = Known ->
  trk_pt s !! trk_id = Some pt -> ~ (pt == 0)%Q ->
  trk_id ∉ trkd_ids s ->
  (now1 - pt <= 0)%Q ->
  let s' := exec (calculate_speed trk_id track now1 now2) s in
  result (calculate_speed trk_id track now1 now2) s = Ok tt /\
  spd s' = spd s /\
  trkd_ids s' = trkd_ids s ++ [trk_id] /\
  trk_pt s' = <[trk_id := now2]> (trk_pt s) /\
  trk_pp s' = <[trk_id := latest]> (trk_pp s) /\
  forall cs, spd (run cs s') !! trk_id = spd s !! trk_id.
Proof.
  intros H0 H1 Hl Hlo Hhi Hband Hpt Hnz Hnew Hdt s'.
  assert (calculate_speed trk_id track now1 now2 s =
          (set_trk_pp <[trk_id := latest]>
             (set_trk_pt <[trk_id := now2]>
                (set_trkd_ids (fun ids => ids ++ [trk_id]) s)), Ok tt)) as Heq.
  { rewrite (calculate_speed_in_region s trk_id track latest r0 r1) by done.
    unfold bind at 1.
    rewrite (finalize_guard_passes s trk_id latest r0 r1 pt now1) by done.
    apply Qltb_ge in Hdt. simpl. rewrite Hdt. done. }
  subst s'. unfold exec, result. rewrite Heq. simpl.
  repeat split; try done.
  intros cs.
  match goal with |- spd (run cs ?s1) !! _ = _ =>
    destruct (run_frozen cs s1 trk_id) as [-> _]; [simpl; set_solver | done] end.
Qed.

Lemma calculate_speed_stalled_sample_witness :
  result (calculate_speed 1 SpeedScenario.track_b (5 # 1) (5 # 1)) SpeedScenario.sampled = Ok tt /\
  spd SpeedScenario.stalled = spd SpeedScenario.sampled /\
  trkd_ids SpeedScenario.stalled = trkd_ids SpeedScenario.sampled ++ [1] /\
  trk_pt SpeedScenario.stalled = <[1 := (5 # 1)%Q]> (trk_pt SpeedScenario.sampled) /\
  trk_pp SpeedScenario.stalled = <[1 := (100 # 1, 395 # 1)%Q]> (trk_pp SpeedScenario.sampled) /\
  forall cs, spd (run cs SpeedScenario.stalled) !! 1 = spd SpeedScenario.sampled !! 1.
Proof.
  apply (calculate_speed_stalled_sample SpeedScenario.sampled 1 SpeedScenario.track_b
           (100 # 1, 395 # 1)%Q (20 # 1, 400 # 1)%Q (1260 # 1, 400 # 1)%Q (5 # 1)%Q).
  - reflexivity.
  - reflexivity.
  - reflexivity.
  - vm_compute. reflexivity.
  - vm_compute. reflexivity.
  - vm_compute. reflexivity.
  - vm_compute. reflexivity.
  - vm_compute. discriminate.
  - vm_compute. intros H. inversion H.
  - vm_compute. discriminate.
Defined.

(** C5, the claim as worded fails: after a sample with a zero time delta
    (clock still at 5), track 1 is in the band again at time 6, one second
    after its last sample, and still gets no speed. *)
Lemma stalled_sample_is_not_retried :
  trk_pt SpeedScenario.sampled !! 1 = Some (5 # 1)%Q /\
  result (calculate_speed 1 SpeedScenario.track_b (5 # 1) (5 # 1)) SpeedScenario.sampled = Ok tt /\
  spd SpeedScenario.stalled !! 1 = None /\
  trk_pt SpeedScenario.stalled !! 1 = Some (5 # 1)%Q /\
  band SpeedScenario.stalled (20 # 1, 400 # 1)%Q (1260 # 1, 400 # 1)%Q (100 # 1, 405 # 1)%Q = Known /\
  result (calculate_speed 1 SpeedScenario.track_c (6 # 1) (6 # 1)) SpeedScenario.stalled = Ok tt /\
  spd (exec (calculate_speed 1 SpeedScenario.track_c (6 # 1) (6 # 1)) SpeedScenario.stalled) !! 1 = None.
Proof. vm_compute. repeat split; reflexivity. Qed.

(** C10 (as the code has it).  A direct call for a track with no entry in
    [trk_pt], not yet in [trkd_ids], whose latest point is inside the
    region and the band: the guard passes, the id is appended to
    [trkd_ids], and the read of [trk_pt[trk_id]] on line 68 raises KeyError;
    nothing else changes. *)
Theorem calculate_speed_unseen_track s trk_id track latest r0 r1 now1 now2 :
  reg_pts s !! 0%nat = Some r0 -> reg_pts s !! 1%nat = Some r1 ->
  last track = Some latest ->
  (fst r0 < fst latest)%Q -> (fst latest < fst r1)%Q ->
  band s r0 r1 latest = Known ->
  trk_pt s !! trk_id = None ->
  trk_id ∉ trkd_ids s ->
  calculate_speed trk_id track now1 now2 s =
    (set_trkd_ids (fun ids => ids ++ [trk_id]) s, Raise (KeyError "trk_pt" trk_id)).
Proof.
  intros H0 H1 Hl Hlo Hhi Hband Hpt Hnew.
  rewrite (calculate_speed_in_region s trk_id track latest r0 r1) by done.
  unfold bind at 1. unfold finalize, bind, get, modify, read_trk_pt.
  rewrite Hband. unfold prev_time_nonzero. rewrite Hpt. simpl.
  rewrite bool_decide_eq_false_2 by done. simpl. by rewrite Hpt.
Qed.

Lemma calculate_speed_unseen_track_witness :
  calculate_speed 7 [(100 # 1, 400 # 1)%Q] (1 # 1) (1 # 1) SpeedScenario.fresh =
    (set_trkd_ids (fun ids => ids ++ [7]) SpeedScenario.fresh, Raise (KeyError "trk_pt" 7)).
Proof.
  apply (calculate_speed_unseen_track SpeedScenario.fresh 7 _
           (100 # 1, 400 # 1)%Q (20 # 1, 400 # 1)%Q (1260 # 1, 400 # 1)%Q).
  - reflexivity.
  - reflexivity.
  - reflexivity.
  - vm_compute. reflexivity.
  - vm_compute. reflexivity.
  - vm_compute. reflexivity.
  - vm_compute. reflexivity.
  - vm_compute. intros H. inversion H.
Defined.

(** C10, the claim as worded fails: for a track without an entry in
    [trk_pt] the failing read is never the one of [trk_pp]. *)
Lemma unseen_track_never_fails_on_trk_pp :
  ~ exists s trk_id track now1 now2,
      trk_pt s !! trk_id = None /\
      result (calculate_speed trk_id track now1 now2) s = Raise (KeyError "trk_pp" trk_id).
Proof.
  intros (s & trk_id & track & now1 & now2 & Hpt & Hres).
  revert Hres. py_unfold. unfold prev_time_nonzero.
  repeat (case_match; simplify_eq/=); done.
Qed.

End SpeedEstimatorFacts.
(** ** Properties of heatmap.py *)

Module HeatmapFacts.
Import Heatmap.

Section Facts.
Context `{G : Geometry}.

Lemma track_detection_known s d label :
  names s !! d_cls d = Some label ->
  track_detection d s =
    count_crossing d label
      (append_bounded (history_of s (d_id d)) (bbox_center (d_box d)))
      (last (history_of s (d_id d)))
      (prepared s d label).
Proof.
  intros Hl. unfold track_detection, class_label.
  unfold bind at 1. rewrite Hl.
  unfold bind at 1. unfold get at 1. cbv beta iota.
  rewrite append_bounded_previous.
  unfold prepared, history_of.
  destruct (bool_decide (label ∈ dom (class_wise_count s))); reflexivity.
Qed.

Lemma track_detection_unknown s d :
  names s !! d_cls d = None ->
  track_detection d s = (s, Raise (KeyError "names" (d_cls d))).
Proof.
  intros Hl. unfold track_detection, class_label.
  unfold bind at 1. by rewrite Hl.
Qed.

Lemma prepared_counts s d label l :
  counts_of (class_wise_count (prepared s d label)) l = counts_of (class_wise_count s) l.
Proof.
  unfold prepared, counts_of. simpl.
  case_bool_decide as Hin; [done|]. simpl.
  destruct (decide (label = l)) as [->|Hne].
  - rewrite lookup_insert_eq. apply not_elem_of_dom in Hin. by rewrite Hin.
  - by rewrite lookup_insert_ne.
Qed.

Lemma prepared_bucket s d label :
  class_wise_count (prepared s d label) !! label
  = Some (counts_of (class_wise_count s) label).
Proof.
  unfold prepared, counts_of. simpl.
  case_bool_decide as Hin; simpl.
  - apply elem_of_dom in Hin as [b Hb]. by rewrite Hb.
  - rewrite lookup_insert_eq. apply not_elem_of_dom in Hin. by rewrite Hin.
Qed.

(** The preparation leaves totals, counted ids and region alone. *)
Lemma prepared_fields s d label :
  count_ids (prepared s d label) = count_ids s /\
  in_counts (prepared s d label) = in_counts s /\
  out_counts (prepared s d label) = out_counts s /\
  count_reg_pts (prepared s d label) = count_reg_pts s /\
  counting_region (prepared s d label) = counting_region s /\
  counting_line_segment (prepared s d label) = counting_line_segment s.
Proof. unfold prepared. simpl. by case_bool_decide. Qed.

Ltac cc_unfold :=
  unfold count_crossing, record_count, bump, the_region, the_line, index_last,
    bind, get, modify, ret, raise, exec, result in *.

(** A track in [count_ids] goes through the counting code without any
    effect on the object. *)
Lemma count_crossing_counted s d label track_line prev :
  d_id d ∈ count_ids s ->
  exec (count_crossing d label track_line prev) s = s.
Proof.
  intros Hin. cc_unfold.
  rewrite (bool_decide_eq_true_2 _ Hin).
  repeat (case_match; simplify_eq/=); try done.
  all: by rewrite andb_false_r in *.
Qed.

(** Otherwise the counting code either leaves the object alone or runs
    [record_count] for a track that was not counted before. *)
Lemma count_crossing_cases s d label track_line prev :
  exec (count_crossing d label track_line prev) s = s \/
  ((d_id d ∉ count_ids s) /\
   exists p region, prev = Some p /\
     count_crossing d label track_line prev s = record_count d label p region s).
Proof.
  unfold count_crossing, the_region, the_line, index_last, bind, get, ret, raise, exec.
  repeat (case_match; simplify_eq/=); auto.
  all: right; rewrite ?andb_true_iff, ?negb_true_iff, ?bool_decide_eq_false in *.
  all: split; [tauto | eauto].
Qed.

(** What [record_count] does to the totals, whether or not the bucket
    update that ends it succeeds. *)
Lemma record_count_totals s d label p region :
  let s' := exec (record_count d label p region) s in
  count_ids s' = count_ids s ++ [d_id d] /\
  in_counts s' + out_counts s' = in_counts s + out_counts s + 1 /\
  track_history s' = track_history s /\
  heatmap s' = heatmap s /\
  count_reg_pts s' = count_reg_pts s.
Proof.
  cc_unfold. repeat (case_match; simplify_eq/=); repeat split; lia.
Qed.

(** *** Invariants of a session *)

Lemma track_detection_counted_inv d s :
  counted_inv s -> counted_inv (exec (track_detection d) s).
Proof.
  intros [Hnd Htot].
  destruct (names s !! d_cls d) as [label|] eqn:Hl.
  2:{ unfold exec. by rewrite track_detection_unknown. }
  unfold exec. rewrite (track_detection_known s d label Hl).
  match goal with |- counted_inv (fst (count_crossing _ _ ?tl ?pv ?s1)) =>
    destruct (count_crossing_cases s1 d label tl pv) as [Heq|(Hnew & p & region & _ & Heq)];
    [ unfold exec in Heq; rewrite Heq
    | rewrite Heq;
      destruct (record_count_totals s1 d label p region) as (Hids & Hsum & _) ]
  end.
  - unfold counted_inv. destruct (prepared_fields s d label) as (-> & -> & -> & _). done.
  - unfold exec in *.
    destruct (prepared_fields s d label) as (Hc & Hi & Ho & _).
    rewrite Hc in Hids, Hnew. rewrite Hi, Ho in Hsum.
    split.
    + rewrite Hids. apply NoDup_app. split_and!; [done | | apply NoDup_singleton].
      intros x Hx ->%list_elem_of_singleton. done.
    + rewrite Hids, Hsum, length_app. simpl. lia.
Qed.

Lemma track_detection_history_inv d s :
  history_inv s -> history_inv (exec (track_detection d) s).
Proof.
  intros Hinv.
  destruct (names s !! d_cls d) as [label|] eqn:Hl.
  2:{ unfold exec. by rewrite track_detection_unknown. }
  unfold exec. rewrite (track_detection_known s d label Hl).
  assert (history_inv (prepared s d label)) as Hprep.
  { intros id l. unfold prepared. simpl.
    replace (track_history (if bool_decide (label ∈ dom (class_wise_count s)) then s
              else set_class_wise_count <[label:=mkBucket 0 0]> s))
      with (track_history s) by (by case_bool_decide).
    destruct (decide (d_id d = id)) as [<-|Hne].
    - rewrite lookup_insert_eq. intros [= <-].
      apply append_bounded_length. unfold history_of.
      destruct (track_history s !! d_id d) as [l0|] eqn:E; simpl; [by eapply Hinv | lia].
    - rewrite lookup_insert_ne by done. apply Hinv. }
  match goal with |- history_inv (fst (count_crossing _ _ ?tl ?pv ?s1)) =>
    destruct (count_crossing_cases s1 d label tl pv) as [Heq|(Hnew & p & region & _ & Heq)];
    [ unfold exec in Heq; rewrite Heq
    | rewrite Heq;
      destruct (record_count_totals s1 d label p region) as (_ & _ & Hh & _) ]
  end.
  - done.
  - unfold exec in Hh. intros id l. rewrite Hh. apply Hprep.
Qed.

(** A property of the object that does not read the buffer and is kept
    by the loop body is kept by a whole frame. *)
Lemma generate_heatmap_inv (P : t -> Prop) f :
  (forall s g, P s -> P (set_buffer g s)) ->
  (forall s g, P s -> P (set_heatmap g s)) ->
  (forall d s, d ∈ dets_of f -> P s -> P (exec (track_detection d) s)) ->
  forall s, P s -> P (exec (generate_heatmap f) s).
Proof.
  intros Hbuf Hheat Hbody s Hs.
  unfold generate_heatmap, exec.
  unfold bind at 1. unfold get at 1. cbv beta iota.
  unfold bind at 1.
  set (s1 := fst ((if initialized s then ret ()
                   else modify (set_buffer (fun _ => Some (zeros (f_height f) (f_width f))))) s)).
  assert (P s1) as H1.
  { subst s1. destruct (initialized s); simpl; [done | by apply Hbuf]. }
  replace ((if initialized s then ret ()
            else modify (set_buffer (fun _ => Some (zeros (f_height f) (f_width f))))) s)
    with (s1, Ok tt) by (subst s1; by destruct (initialized s)).
  unfold bind at 1. unfold modify at 1. cbv beta iota.
  set (s2 := set_heatmap (decay (decay_factor s1)) s1).
  assert (P s2) as H2 by (by apply Hheat).
  unfold bind at 1.
  set (loop := if truthy (f_dets f) then iterate track_detection (f_dets f)
               else iterate untracked_heat (f_dets f)).
  assert (P (fst (loop s2))) as H3.
  { subst loop. unfold iterate, dets_of in *.
    destruct (f_dets f) as [ds|]; simpl in *.
    - destruct ds as [|d ds]; simpl; [done|].
      apply (for_each_inv P track_detection (d :: ds)); auto.
    - done. }
  destruct (loop s2) as [s3 [[]|e]]; simpl in *; [|done].
  by destruct (env_check s && view_img s && f_key_q f).
Qed.

Lemma generate_heatmap_counted_inv f s :
  counted_inv s -> counted_inv (exec (generate_heatmap f) s).
Proof.
  apply generate_heatmap_inv; [done | done | intros; by apply track_detection_counted_inv].
Qed.

Lemma generate_heatmap_history_inv f s :
  history_inv s -> history_inv (exec (generate_heatmap f) s).
Proof.
  apply generate_heatmap_inv; [done | done | intros; by apply track_detection_history_inv].
Qed.

Lemma init_fresh names0 alpha view pts k ok s :
  snd (init names0 alpha view pts k ok) = Ok s ->
  count_ids s = [] /\ in_counts s = 0 /\ out_counts s = 0 /\
  track_history s = ∅ /\ class_wise_count s = ∅ /\ count_reg_pts s = pts.
Proof.
  unfold init, LineString, Polygon.
  repeat (case_match; simplify_eq/=); intros; simplify_eq/=; done.
Qed.

Lemma reachable_counted_inv s : reachable s -> counted_inv s.
Proof.
  induction 1 as [? ? ? ? ? ? s Hinit|s f _ IH].
  - apply init_fresh in Hinit as (Hids & Hin & Hout & _).
    unfold counted_inv. rewrite Hids, Hin, Hout. split; [constructor | done].
  - by apply generate_heatmap_counted_inv.
Qed.

Lemma reachable_history_inv s : reachable s -> history_inv s.
Proof.
  induction 1 as [? ? ? ? ? ? s Hinit|s f _ IH].
  - apply init_fresh in Hinit as (_ & _ & _ & Hh & _).
    intros id l. by rewrite Hh, lookup_empty.
  - by apply generate_heatmap_history_inv.
Qed.

(** *** Counting at most once *)

Lemma same_counters_refl s : same_counters s s.
Proof. by repeat split. Qed.

Lemma same_counters_trans s1 s2 s3 :
  same_counters s1 s2 -> same_counters s2 s3 -> same_counters s1 s3.
Proof.
  intros (? & ? & ? & Ha) (? & ? & ? & Hb).
  split_and!; [congruence.. |]. intros l. by rewrite Hb, Ha.
Qed.

Lemma prepared_same_counters s d label : same_counters s (prepared s d label).
Proof.
  destruct (prepared_fields s d label) as (? & ? & ? & _).
  repeat split; try done. intros l. apply prepared_counts.
Qed.

Lemma track_detection_counted d s :
  d_id d ∈ count_ids s -> same_counters s (exec (track_detection d) s).
Proof.
  intros Hin.
  destruct (names s !! d_cls d) as [label|] eqn:Hl.
  2:{ unfold exec. rewrite track_detection_unknown by done. apply same_counters_refl. }
  unfold exec. rewrite (track_detection_known s d label Hl).
  match goal with |- same_counters _ (fst (count_crossing _ _ ?tl ?pv ?s1)) =>
    pose proof (count_crossing_counted s1 d label tl pv) as Heq end.
  unfold exec in Heq. rewrite Heq.
  - apply prepared_same_counters.
  - by destruct (prepared_fields s d label) as (-> & _).
Qed.

Lemma set_buffer_same_counters s0 s g :
  same_counters s0 s -> same_counters s0 (set_buffer g s).
Proof. done. Qed.

Lemma set_heatmap_same_counters s0 s g :
  same_counters s0 s -> same_counters s0 (set_heatmap g s).
Proof. done. Qed.

(** A frame made of counted tracks only changes no counter. *)
Lemma generate_heatmap_counted f s :
  (forall d, d ∈ dets_of f -> d_id d ∈ count_ids s) ->
  same_counters s (exec (generate_heatmap f) s).
Proof.
  intros Hall.
  apply (generate_heatmap_inv (same_counters s)).
  - apply set_buffer_same_counters.
  - apply set_heatmap_same_counters.
  - intros d s' Hd Hs'. eapply same_counters_trans; [done|].
    apply track_detection_counted.
    destruct Hs' as (_ & _ & -> & _). by apply Hall.
  - apply same_counters_refl.
Qed.

Lemma track_detection_keeps_counted id d s :
  id ∈ count_ids s -> id ∈ count_ids (exec (track_detection d) s).
Proof.
  intros Hin.
  destruct (names s !! d_cls d) as [label|] eqn:Hl.
  2:{ unfold exec. by rewrite track_detection_unknown. }
  unfold exec. rewrite (track_detection_known s d label Hl).
  destruct (prepared_fields s d label) as (Hc & _).
  match goal with |- _ ∈ count_ids (fst (count_crossing _ _ ?tl ?pv ?s1)) =>
    destruct (count_crossing_cases s1 d label tl pv) as [Heq|(Hnew & p & region & _ & Heq)];
    [ unfold exec in Heq; rewrite Heq
    | rewrite Heq;
      destruct (record_count_totals s1 d label p region) as (Hids & _) ]
  end.
  - by rewrite Hc.
  - unfold exec in Hids. rewrite Hids, Hc. set_solver.
Qed.

Lemma run_keeps_counted id fs s :
  id ∈ count_ids s -> id ∈ count_ids (run fs s).
Proof.
  revert s. induction fs as [|f fs IH]; intros s Hin; [done|].
  simpl. apply IH.
  apply (generate_heatmap_inv (fun s => id ∈ count_ids s)); try done.
  intros. by apply track_detection_keeps_counted.
Qed.

Lemma frames_reachable fs s : reachable s -> reachable (run fs s).
Proof.
  revert s. induction fs as [|f fs IH]; intros s Hs; [done|].
  simpl. apply IH. by constructor.
Qed.

(** C2.  In every state of a session the counted list holds each track
    once and the totals count exactly that list; a detection of a counted
    track, and a whole frame of counted tracks, change neither total, the
    counted list, nor any per-class counter; and a counted track stays
    counted through all later frames. *)
Theorem at_most_once_counting s :
  reachable s ->
  (NoDup (count_ids s) /\
   in_counts s + out_counts s = Z.of_nat (length (count_ids s))) /\
  (forall d, d_id d ∈ count_ids s -> same_counters s (exec (track_detection d) s)) /\
  (forall f, (forall d, d ∈ dets_of f -> d_id d ∈ count_ids s) ->
             same_counters s (exec (generate_heatmap f) s)) /\
  (forall fs id, id ∈ count_ids s -> id ∈ count_ids (run fs s)).
Proof.
  intros Hs. split; [|split_and!].
  - by apply reachable_counted_inv.
  - intros d. apply track_detection_counted.
  - intros f. apply generate_heatmap_counted.
  - intros fs id. apply run_keeps_counted.
Qed.

(** *** Frames without ids *)

(** C3 (code defect).  The claim asks that a frame without track ids
    return normally after the decay.  On such a frame [boxes] and [clss]
    stay [None]: the buffer is allocated if need be and multiplied by the
    decay factor, then the loop over [zip(boxes, clss)] raises TypeError. *)
Theorem generate_heatmap_without_ids_raises s h w q :
  generate_heatmap (mkFrame h w None q) s =
    (set_heatmap (decay (decay_factor s))
       (if initialized s then s else set_buffer (fun _ => Some (zeros h w)) s),
     Raise TypeError).
Proof.
  unfold generate_heatmap, bind, get, modify, ret, raise, iterate. simpl.
  by destruct (initialized s).
Qed.

(** With an empty list of ids the frame is processed: decay only. *)
Lemma generate_heatmap_no_tracks s h w :
  generate_heatmap (mkFrame h w (Some []) false) s =
    (set_heatmap (decay (decay_factor s))
       (if initialized s then s else set_buffer (fun _ => Some (zeros h w)) s),
     Ok RetImage).
Proof.
  unfold generate_heatmap, bind, get, modify, ret, raise, iterate. simpl.
  destruct (initialized s); simpl; by rewrite andb_false_r.
Qed.

(** The buffer after [n] frames without ids, the caller catching each
    exception: [n] decays and nothing else. *)
Lemma run_without_ids_buffer n s h w q hm :
  initialized s = true -> heatmap s = Some hm ->
  heatmap (run (replicate n (mkFrame h w None q)) s)
  = Some (Nat.iter n (decay (decay_factor s)) hm) /\
  same_counters s (run (replicate n (mkFrame h w None q)) s).
Proof.
  revert s hm. induction n as [|n IH]; intros s hm Hinit Hhm.
  - split; [done | apply same_counters_refl].
  - simpl. unfold exec. rewrite generate_heatmap_without_ids_raises. simpl.
    rewrite Hinit.
    destruct (IH (set_heatmap (decay (decay_factor s)) s) (decay (decay_factor s) hm))
      as [Hb Hc]; [done | by simpl; rewrite Hhm |].
    split; [|done].
    rewrite Hb. simpl. f_equal.
    clear. induction n as [|n IHn]; [done|]. simpl. by rewrite <- IHn.
Qed.




(** *** Region points *)

(** C4 (code defect).  The claim asks that a region of a single point
    be reported and counting disabled without a crash.  The constructor
    prints the two lines of the warning and then builds a line from the
    single point, which the geometry library refuses: construction ends
    with that exception. *)
Theorem init_single_point_raises names0 alpha view p k ok :
  init names0 alpha view (Some [p]) k ok
  = ([msg_invalid; msg_fallback], Raise GEOSException) /\
  forall s, snd (init names0 alpha view (Some [p]) k ok) <> Ok s.
Proof.
  assert (init names0 alpha view (Some [p]) k ok
          = ([msg_invalid; msg_fallback], Raise GEOSException)) as Heq.
  { unfold init, LineString. reflexivity. }
  split; [done|]. intros s. by rewrite Heq.
Qed.

(** With no point at all the warning is printed and the object built. *)
Lemma init_no_point names0 alpha view k ok :
  init names0 alpha view (Some []) k ok
  = ([msg_invalid; msg_fallback],
     Ok (set_region (GLine []) None (blank names0 alpha view (Some []) k ok))).
Proof. reflexivity. Qed.

(** An object holding fewer than two region points never counts. *)
Lemma count_crossing_disabled s d label track_line prev pts :
  count_reg_pts s = Some pts -> (length pts < 2)%nat ->
  count_crossing d label track_line prev s = (s, Ok tt).
Proof.
  intros Hp Hlen. unfold count_crossing, bind, get, ret. rewrite Hp.
  destruct (Z.leb_spec 3 (Z.of_nat (length pts))); [lia|].
  destruct (Z.eqb_spec (Z.of_nat (length pts)) 2); [lia|]. done.
Qed.

Lemma generate_heatmap_counting_disabled f s pts :
  count_reg_pts s = Some pts -> (length pts < 2)%nat ->
  same_counters s (exec (generate_heatmap f) s).
Proof.
  intros Hp Hlen.
  apply (generate_heatmap_inv (fun s' => same_counters s s' /\ count_reg_pts s' = Some pts)).
  - by intros s' g [? ?].
  - by intros s' g [? ?].
  - intros d s' _ [Hsame Hp'].
    destruct (names s' !! d_cls d) as [label|] eqn:Hl.
    2:{ unfold exec. by rewrite track_detection_unknown. }
    unfold exec. rewrite (track_detection_known s' d label Hl).
    destruct (prepared_fields s' d label) as (_ & _ & _ & Hr & _).
    rewrite (count_crossing_disabled _ _ _ _ _ pts) by (by rewrite ?Hr).
    cbn [fst]. split; [|by rewrite Hr].
    eapply same_counters_trans; [done | apply prepared_same_counters].
  - split; [apply same_counters_refl | done].
Qed.

(** *** Crossings and their direction *)

Lemma record_count_bucket s d label prev region b :
  class_wise_count s !! label = Some b ->
  record_count d label prev region s =
    (if moves_in (d_box d) prev region then counted_in s (d_id d) label b
     else counted_out s (d_id d) label b, Ok tt).
Proof.
  intros Hb. unfold record_count, bump, bind, modify.
  destruct (moves_in (d_box d) prev region); simpl; by rewrite Hb.
Qed.

Lemma count_crossing_polygon s d label track_line current prev pts region :
  count_reg_pts s = Some pts -> (3 <= length pts)%nat ->
  counting_region s = Some region ->
  last track_line = Some current ->
  d_id d ∉ count_ids s ->
  count_crossing d label track_line (Some prev) s =
    if contains region current then record_count d label prev region s
    else (s, Ok tt).
Proof.
  intros Hp Hlen Hr Hl Hnew.
  unfold count_crossing, the_region, index_last, bind, get, ret. rewrite Hp.
  destruct (Z.leb_spec 3 (Z.of_nat (length pts))); [|lia].
  rewrite Hr, Hl. rewrite (bool_decide_eq_false_2 _ Hnew).
  by destruct (contains region current).
Qed.

Lemma count_crossing_line s d label track_line prev pts region line :
  count_reg_pts s = Some pts -> length pts = 2%nat ->
  counting_region s = Some region ->
  counting_line_segment s = Some line ->
  d_id d ∉ count_ids s ->
  count_crossing d label track_line (Some prev) s =
    if intersects (movement prev (d_box d)) line then record_count d label prev region s
    else (s, Ok tt).
Proof.
  intros Hp Hlen Hr Hline Hnew.
  unfold count_crossing, the_region, the_line, bind, get, ret. rewrite Hp.
  destruct (Z.leb_spec 3 (Z.of_nat (length pts))); [lia|].
  destruct (Z.eqb_spec (Z.of_nat (length pts)) 2); [|lia].
  rewrite (bool_decide_eq_false_2 _ Hnew). simpl. rewrite Hline.
  destruct (intersects (movement prev (d_box d)) line); [|done].
  by rewrite Hr.
Qed.

Lemma track_detection_qualifying s d label prev region :
  names s !! d_cls d = Some label ->
  last (history_of s (d_id d)) = Some prev ->
  qualifies s d prev region ->
  track_detection d s =
    (let s1 := prepared s d label in
     let b := counts_of (class_wise_count s) label in
     if moves_in (d_box d) prev region then counted_in s1 (d_id d) label b
     else counted_out s1 (d_id d) label b, Ok tt).
Proof.
  intros Hl Hprev (Hnew & Hr & pts & Hp & Hmode).
  rewrite (track_detection_known s d label Hl), Hprev.
  destruct (prepared_fields s d label) as (Hc & _ & _ & Hp' & Hr' & Hline').
  rewrite <- Hc in Hnew. rewrite <- Hp' in Hp. rewrite <- Hr' in Hr.
  destruct Hmode as [[Hlen Hin]|(Hlen & line & Hline & Hx)].
  - rewrite (count_crossing_polygon _ _ _ _ (bbox_center (d_box d)) _ pts region)
      by (done || apply append_bounded_last).
    rewrite Hin. apply record_count_bucket, prepared_bucket.
  - rewrite <- Hline' in Hline.
    rewrite (count_crossing_line _ _ _ _ _ pts region line) by done.
    rewrite Hx. apply record_count_bucket, prepared_bucket.
Qed.

Lemma moves_in_sign b prev region :
  moves_in b prev region = true <->
  (0 < (bx0 b - fst prev) * (centroid_x region - fst prev))%Q.
Proof. apply Qltb_lt. Qed.

Lemma counts_of_insert (m : gmap string bucket) label b l :
  counts_of (<[label := b]> m) l = if decide (label = l) then b else counts_of m l.
Proof.
  unfold counts_of. case_decide as Hl.
  - subst. by rewrite lookup_insert_eq.
  - by rewrite lookup_insert_ne.
Qed.

(** C6 (as the code has it).  For every qualifying crossing, in polygon
    and in line mode, the track is recorded and the direction is the sign
    of [(box[0] - previous.x) * (region_centroid.x - previous.x)], where
    [box[0]] is the left edge of the current box, [previous] the position
    recorded last for the track and [region_centroid] the centroid of the
    counting region: strictly positive increments the total and the
    per-class IN counter, anything else the OUT counters. *)
Theorem direction_by_box_left_edge s d label prev region :
  names s !! d_cls d = Some label ->
  last (history_of s (d_id d)) = Some prev ->
  qualifies s d prev region ->
  let sign := ((bx0 (d_box d) - fst prev) * (centroid_x region - fst prev))%Q in
  let s' := exec (track_detection d) s in
  result (track_detection d) s = Ok tt /\
  count_ids s' = count_ids s ++ [d_id d] /\
  ((0 < sign)%Q ->
     in_counts s' = in_counts s + 1 /\ out_counts s' = out_counts s /\
     counts_of (class_wise_count s') label = bump_in (counts_of (class_wise_count s) label)) /\
  ((sign <= 0)%Q ->
     out_counts s' = out_counts s + 1 /\ in_counts s' = in_counts s /\
     counts_of (class_wise_count s') label = bump_out (counts_of (class_wise_count s) label)).
Proof.
  intros Hl Hprev Hq sign s'. subst s'. unfold exec, result.
  rewrite (track_detection_qualifying s d label prev region) by done.
  destruct (prepared_fields s d label) as (Hc & Hi & Ho & _).
  cbn [fst snd].
  destruct (moves_in (d_box d) prev region) eqn:Hm.
  - unfold counted_in.
    split; [done|]. split; [by cbn -[prepared]; rewrite Hc|]. split.
    + intros _. cbn -[prepared]. rewrite Hi, Ho.
      split_and!; [done | done |]. rewrite counts_of_insert. by case_decide.
    + intros Hle. apply moves_in_sign in Hm. exfalso. by eapply Qlt_not_le.
  - unfold counted_out.
    split; [done|]. split; [by cbn -[prepared]; rewrite Hc|]. split.
    + intros Hlt. apply moves_in_sign in Hlt. congruence.
    + intros _. cbn -[prepared]. rewrite Hi, Ho.
      split_and!; [done | done |]. rewrite counts_of_insert. by case_decide.
Qed.

(** C7 (as the code has it).  In line mode, for a detection of an
    uncounted track with a previous position, the segment tested against
    the counting line runs from the centre recorded last for the track to
    the top-left corner [(box[0], box[1])] of the current box; a count is
    recorded exactly when that segment meets the line. *)
Theorem line_crossing_segment s d label prev region pts line :
  names s !! d_cls d = Some label ->
  last (history_of s (d_id d)) = Some prev ->
  d_id d ∉ count_ids s ->
  count_reg_pts s = Some pts -> length pts = 2%nat ->
  counting_line_segment s = Some line ->
  counting_region s = Some region ->
  let s' := exec (track_detection d) s in
  result (track_detection d) s = Ok tt /\
  (intersects (prev, (bx0 (d_box d), by0 (d_box d))) line = true ->
     count_ids s' = count_ids s ++ [d_id d] /\
     in_counts s' + out_counts s' = in_counts s + out_counts s + 1) /\
  (intersects (prev, (bx0 (d_box d), by0 (d_box d))) line = false ->
     count_ids s' = count_ids s /\ in_counts s' = in_counts s /\
     out_counts s' = out_counts s).
Proof.
  intros Hl Hprev Hnew Hp Hlen Hline Hr s'. subst s'. unfold exec, result.
  rewrite (track_detection_known s d label Hl), Hprev.
  destruct (prepared_fields s d label) as (Hc & Hi & Ho & Hp' & Hr' & Hline').
  rewrite (count_crossing_line _ _ _ _ _ pts region line) by congruence.
  unfold movement.
  destruct (intersects (prev, (bx0 (d_box d), by0 (d_box d))) line) eqn:Hx.
  - rewrite (record_count_bucket _ _ _ _ _ _ (prepared_bucket s d label)).
    split; [done|]. split; [|done]. intros _.
    destruct (moves_in (d_box d) prev region); unfold counted_in, counted_out;
      cbn -[prepared]; rewrite Hc, Hi, Ho; split; (done || lia).
  - cbn [fst snd]. split; [done|]. split; [done|]. intros _. by rewrite Hc, Hi, Ho.
Qed.

(** *** The history of a track in the heatmap *)

(** Processing a detection of a known class appends its box centre to
    the track's history, dropping the oldest entry of a full one. *)
Lemma track_detection_history s d label :
  names s !! d_cls d = Some label ->
  track_history (exec (track_detection d) s) !! d_id d
  = Some (append_bounded (history_of s (d_id d)) (bbox_center (d_box d))).
Proof.
  intros Hl. unfold exec. rewrite (track_detection_known s d label Hl).
  match goal with |- track_history (fst (count_crossing _ _ ?tl ?pv ?s1)) !! _ = _ =>
    destruct (count_crossing_cases s1 d label tl pv) as [Heq|(Hnew & p & region & _ & Heq)];
    [ unfold exec in Heq; rewrite Heq
    | rewrite Heq;
      destruct (record_count_totals s1 d label p region) as (_ & _ & Hh & _);
      unfold exec in Hh; rewrite Hh ]
  end.
  all: unfold prepared; simpl; by rewrite lookup_insert_eq.
Qed.

(** In every state of a session every history holds at most 30
    positions. *)
Lemma heatmap_history_bounded s id l :
  reachable s -> track_history s !! id = Some l -> (length l <= 30)%nat.
Proof. intros Hs. by apply reachable_history_inv. Qed.

(** *** Frames that are processed to the end *)

Lemma count_crossing_setup s d label track_line prev :
  same_setup s (exec (count_crossing d label track_line prev) s).
Proof.
  cc_unfold. by repeat (case_match; simplify_eq/=).
Qed.

Lemma track_detection_setup d s : same_setup s (exec (track_detection d) s).
Proof.
  destruct (names s !! d_cls d) as [label|] eqn:Hl.
  2:{ unfold exec. by rewrite track_detection_unknown. }
  unfold exec. rewrite (track_detection_known s d label Hl).
  match goal with |- same_setup _ (fst (count_crossing _ _ ?tl ?pv ?s1)) =>
    destruct (count_crossing_setup s1 d label tl pv) as (Hn & Hp & Hr & Hline) end.
  unfold exec in *. destruct (prepared_fields s d label) as (_ & _ & _ & Hp' & Hr' & Hl').
  split_and!; [|congruence..].
  rewrite Hn. unfold prepared. simpl. by case_bool_decide.
Qed.

Lemma track_detection_returns s d label :
  region_inv s -> names s !! d_cls d = Some label ->
  result (track_detection d) s = Ok tt.
Proof.
  intros Hinv Hl. unfold result. rewrite (track_detection_known s d label Hl).
  destruct (prepared_fields s d label) as (_ & _ & _ & Hp' & Hr' & Hl').
  pose proof (prepared_bucket s d label) as Hb.
  unfold count_crossing, bind, get. cbv beta iota. rewrite Hp'.
  destruct (count_reg_pts s) as [pts|] eqn:Hp; [|done].
  destruct (Hinv pts Hp) as [Hpoly Hline].
  destruct (Z.leb_spec 3 (Z.of_nat (length pts))).
  - destruct Hpoly as [region Hr]; [lia|].
    unfold the_region, index_last, ret. rewrite Hr', Hr, append_bounded_last.
    destruct (last (history_of s (d_id d))) as [prev|]; [|done].
    case_match; [|done]. by rewrite (record_count_bucket _ _ _ _ _ _ Hb).
  - destruct (Z.eqb_spec (Z.of_nat (length pts)) 2); [|done].
    destruct Hline as [[region Hr] [line Hline]]; [lia|].
    destruct (last (history_of s (d_id d))) as [prev|]; [|done].
    case_match; [|done].
    unfold bind, the_line, the_region, ret. rewrite Hl', Hline.
    case_match; [|done].
    rewrite Hr', Hr. by rewrite (record_count_bucket _ _ _ _ _ _ Hb).
Qed.

Lemma reachable_region_inv s : reachable s -> region_inv s.
Proof.
  induction 1 as [? ? ? pts0 ? ? s Hinit|s f _ IH].
  - revert Hinit. unfold init, LineString, Polygon. intros Hinit pts Hp.
    repeat (case_match; simplify_eq/=);
      split; intros; simpl in *; try lia; eauto.
  - assert (same_setup s (exec (generate_heatmap f) s)) as (_ & Hp & Hr & Hl).
    { apply (generate_heatmap_inv (same_setup s)); try done.
      intros d s' _ (? & ? & ? & ?).
      destruct (track_detection_setup d s') as (? & ? & ? & ?).
      split_and!; congruence. }
    intros pts. rewrite Hp, Hr, Hl. apply IH.
Qed.

(** On a frame that carries ids, all of a class the session has a name
    for, [generate_heatmap] returns: the image, or [None] when the display
    window is in use and reports the key q. *)
Lemma generate_heatmap_returns s h w ds q :
  reachable s ->
  (forall d, d ∈ ds -> is_Some (names s !! d_cls d)) ->
  result (generate_heatmap (mkFrame h w (Some ds) q)) s
  = Ok (if env_check s && view_img s && q then RetNone else RetImage).
Proof.
  intros Hs Hnames.
  pose proof (reachable_region_inv s Hs) as Hinv.
  unfold generate_heatmap, result.
  unfold bind at 1. unfold get at 1. cbv beta iota.
  unfold bind at 1.
  set (s1 := if initialized s then s else set_buffer (fun _ => Some (zeros h w)) s).
  replace ((if initialized s then ret ()
            else modify (set_buffer (fun _ => Some (zeros (f_height (mkFrame h w (Some ds) q))
                                                       (f_width (mkFrame h w (Some ds) q)))))) s)
    with (s1, Ok tt) by (subst s1; by destruct (initialized s)).
  unfold bind at 1. unfold modify at 1. cbv beta iota.
  set (s2 := set_heatmap (decay (decay_factor s1)) s1).
  assert (same_setup s s2 /\ region_inv s2) as Hs2.
  { subst s2 s1. destruct (initialized s); by split. }
  unfold bind at 1.
  assert (result (if truthy (f_dets (mkFrame h w (Some ds) q))
                  then iterate track_detection (f_dets (mkFrame h w (Some ds) q))
                  else iterate untracked_heat (f_dets (mkFrame h w (Some ds) q))) s2 = Ok tt)
    as Hloop.
  { simpl. destruct ds as [|d ds]; [done|]. unfold iterate.
    apply (for_each_ok (fun s' => same_setup s s' /\ region_inv s')); [|done].
    intros x s' Hx [(Hn & Hp & Hr & Hl) Hinv'].
    destruct (Hnames x Hx) as [label Hlabel].
    split; [apply (track_detection_returns s' x label); [done | congruence]|].
    destruct (track_detection_setup x s') as (Hn' & Hp' & Hr' & Hl').
    split; [split_and!; congruence|].
    intros pts. rewrite Hp', Hr', Hl'. apply Hinv'. }
  unfold result in Hloop.
  destruct ((if truthy (f_dets (mkFrame h w (Some ds) q))
             then iterate track_detection (f_dets (mkFrame h w (Some ds) q))
             else iterate untracked_heat (f_dets (mkFrame h w (Some ds) q))) s2)
    as [s3 r]. simpl in Hloop. subst r. simpl.
  by destruct (env_check s && view_img s && q).
Qed.

End Facts.

(** *** The properties on concrete sessions, with the plane geometry *)

Import Plane HeatScenario.

Lemma line_session_reachable : reachable line_session.
Proof.
  apply (reach_init class_names (1 # 2) false (Some line_pts) (99 # 100) false).
  reflexivity.
Qed.

Lemma at_most_once_counting_witness :
  let s := run [person_at box_low; person_at box_high] line_session in
  (NoDup (count_ids s) /\
   in_counts s + out_counts s = Z.of_nat (length (count_ids s))) /\
  (forall d, d_id d ∈ count_ids s -> same_counters s (exec (track_detection d) s)) /\
  (forall f, (forall d, d ∈ dets_of f -> d_id d ∈ count_ids s) ->
             same_counters s (exec (generate_heatmap f) s)) /\
  (forall fs id, id ∈ count_ids s -> id ∈ count_ids (run fs s)).
Proof.
  apply at_most_once_counting.
  apply frames_reachable, line_session_reachable.
Defined.

Lemma direction_by_box_left_edge_witness :
  let d := mkDet box_high 0 1 in
  let s' := exec (track_detection d) seen_once in
  result (track_detection d) seen_once = Ok tt /\
  count_ids s' = count_ids seen_once ++ [1] /\
  ((0 < (bx0 box_high - fst (bbox_center box_low))
        * (centroid_x (GLine line_pts) - fst (bbox_center box_low)))%Q ->
     in_counts s' = in_counts seen_once + 1 /\ out_counts s' = out_counts seen_once /\
     counts_of (class_wise_count s') "person"
     = bump_in (counts_of (class_wise_count seen_once) "person")) /\
  (((bx0 box_high - fst (bbox_center box_low))
    * (centroid_x (GLine line_pts) - fst (bbox_center box_low)) <= 0)%Q ->
     out_counts s' = out_counts seen_once + 1 /\ in_counts s' = in_counts seen_once /\
     counts_of (class_wise_count s') "person"
     = bump_out (counts_of (class_wise_count seen_once) "person")).
Proof.
  apply (direction_by_box_left_edge seen_once (mkDet box_high 0 1) "person"
           (bbox_center box_low) (GLine line_pts)).
  - reflexivity.
  - vm_compute. reflexivity.
  - split; [vm_compute; intros H; inversion H|].
    split; [reflexivity|].
    exists line_pts. split; [reflexivity|].
    right. split; [reflexivity|].
    exists ((0 # 1, 100 # 1), (200 # 1, 100 # 1))%Q.
    split; [reflexivity | vm_compute; reflexivity].
Defined.

(** C6, the claim as worded fails.  Track 1 is seen at centre (60, 110),
    then in a box centred at (70, 94) whose left edge is at x = 60; the
    counting line has its centroid at x = 100.  The track moved toward
    that x, so the test on its positions is positive, yet the crossing is
    counted OUT. *)
Lemma direction_ignores_current_centre :
  let s' := exec (generate_heatmap (person_at box_right)) seen_once in
  history_of seen_once 1 = [bbox_center box_low] /\
  history_of s' 1 = [bbox_center box_low; bbox_center box_right] /\
  count_ids seen_once = [] /\
  Worded.moves_in (bbox_center box_right) (bbox_center box_low)
                  (centroid_x (GLine line_pts)) = true /\
  count_ids s' = [1] /\ in_counts s' = 0 /\ out_counts s' = 1 /\
  class_wise_count s' !! "person" = Some (mkBucket 0 1).
Proof. vm_compute. repeat split; reflexivity. Qed.

Lemma line_crossing_segment_witness :
  let d := mkDet box_high 0 1 in
  let line := ((0 # 1, 100 # 1), (200 # 1, 100 # 1))%Q in
  let s' := exec (track_detection d) seen_once in
  result (track_detection d) seen_once = Ok tt /\
  (intersects (bbox_center box_low, (bx0 box_high, by0 box_high)) line = true ->
     count_ids s' = count_ids seen_once ++ [1] /\
     in_counts s' + out_counts s' = in_counts seen_once + out_counts seen_once + 1) /\
  (intersects (bbox_center box_low, (bx0 box_high, by0 box_high)) line = false ->
     count_ids s' = count_ids seen_once /\ in_counts s' = in_counts seen_once /\
     out_counts s' = out_counts seen_once).
Proof.
  apply (line_crossing_segment seen_once (mkDet box_high 0 1) "person"
           (bbox_center box_low) (GLine line_pts) line_pts).
  - reflexivity.
  - vm_compute. reflexivity.
  - vm_compute. intros H. inversion H.
  - reflexivity.
  - reflexivity.
  - reflexivity.
  - reflexivity.
Defined.

(** C7, the claim as worded fails.  Track 1 is seen in a box with corner
    (50, 90) and centre (60, 110), then in a box with corner (50, 105).  The
    corner-to-corner segment crosses the line y = 100 and the track is not
    counted yet, but no count is recorded: the tested segment starts at
    the previous centre, already below the line.  Conversely a box with
    corner (50, 92) is counted although the corner never crossed. *)
Lemma crossing_segment_starts_at_centre :
  let line := ((0 # 1, 100 # 1), (200 # 1, 100 # 1))%Q in
  let s' := exec (generate_heatmap (person_at box_lower)) seen_once in
  let s'' := exec (generate_heatmap (person_at box_high)) seen_once in
  count_ids seen_once = [] /\
  length (history_of s' 1) = 2%nat /\
  intersects (Worded.movement box_low box_lower) line = true /\
  count_ids s' = [] /\ in_counts s' = 0 /\ out_counts s' = 0 /\
  intersects (Worded.movement box_low box_high) line = false /\
  count_ids s'' = [1] /\ in_counts s'' + out_counts s'' = 1.
Proof. vm_compute. repeat split; reflexivity. Qed.

End HeatmapFacts.
(** ** Further properties of speed_estimation.py *)

Module SpeedEstimatorMore.
Import SpeedEstimator SpeedEstimatorFacts.

(** *** One call of [calculate_speed], case by case *)

(** X1.  A latest point whose x is not strictly inside the region makes
    the call a no-op: it returns normally and nothing is written, not even
    the sample time and point. *)
Theorem calculate_speed_outside_region s trk_id track latest r0 now1 now2 :
  reg_pts s !! 0%nat = Some r0 ->
  last track = Some latest ->
  ((fst latest <= fst r0)%Q \/
   exists r1, reg_pts s !! 1%nat = Some r1 /\ (fst r1 <= fst latest)%Q) ->
  calculate_speed trk_id track now1 now2 s = (s, Ok tt).
Proof.
  intros H0 Hl Hout.
  unfold calculate_speed, index, index_last, bind, get, ret.
  rewrite H0, Hl.
  destruct (Qltb (fst r0) (fst latest)) eqn:Hlo; [|done].
  destruct Hout as [Hle|(r1 & H1 & Hle)].
  - apply Qltb_lt in Hlo. exfalso. by eapply Qlt_not_le.
  - simpl. rewrite H1. apply Qltb_ge in Hle. by rewrite Hle.
Qed.

Lemma calculate_speed_outside_region_witness :
  calculate_speed 1 [(10 # 1, 400 # 1)%Q] (3 # 1) (3 # 1) SpeedScenario.sampled
  = (SpeedScenario.sampled, Ok tt).
Proof.
  apply (calculate_speed_outside_region SpeedScenario.sampled 1 _
           (10 # 1, 400 # 1)%Q (20 # 1, 400 # 1)%Q).
  - reflexivity.
  - reflexivity.
  - left. vm_compute. discriminate.
Defined.

(** X2.  Inside the region, when the guard of line 65 fails (the point
    is in neither band, or the recorded sample time is 0, or the track is
    already finalized), the call only refreshes the track's sample time
    and point: no speed is stored and the finalized list is unchanged. *)
Theorem calculate_speed_refresh_only s trk_id track latest r0 r1 now1 now2 :
  reg_pts s !! 0%nat = Some r0 -> reg_pts s !! 1%nat = Some r1 ->
  last track = Some latest ->
  in_region r0 r1 latest ->
  (band s r0 r1 latest = Unknown \/
   (exists pt, trk_pt s !! trk_id = Some pt /\ (pt == 0)%Q) \/
   trk_id ∈ trkd_ids s) ->
  calculate_speed trk_id track now1 now2 s =
    (set_trk_pp <[trk_id := latest]> (set_trk_pt <[trk_id := now2]> s), Ok tt).
Proof.
  intros H0 H1 Hl [Hlo Hhi] Hguard.
  rewrite (calculate_speed_in_region s trk_id track latest r0 r1) by done.
  unfold bind at 1.
  assert (finalize trk_id latest (band s r0 r1 latest) now1 s = (s, Ok tt)) as ->.
  { unfold finalize, bind, get, ret.
    destruct Hguard as [-> | [(pt & Hpt & Hz) | Hin]].
    - simpl. by rewrite andb_false_r.
    - unfold prev_time_nonzero. rewrite Hpt.
      apply Qeq_bool_iff in Hz. by rewrite Hz.
    - rewrite (bool_decide_eq_true_2 _ Hin). simpl. by rewrite andb_false_r. }
  reflexivity.
Qed.

Lemma calculate_speed_refresh_only_witness :
  calculate_speed 1 SpeedScenario.track_c (8 # 1) (9 # 1) SpeedScenario.measured =
    (set_trk_pp <[1 := (100 # 1, 405 # 1)%Q]>
       (set_trk_pt <[1 := (9 # 1)%Q]> SpeedScenario.measured), Ok tt).
Proof.
  apply (calculate_speed_refresh_only SpeedScenario.measured 1 SpeedScenario.track_c
           (100 # 1, 405 # 1)%Q (20 # 1, 400 # 1)%Q (1260 # 1, 400 # 1)%Q).
  - reflexivity.
  - reflexivity.
  - reflexivity.
  - split; vm_compute; reflexivity.
  - right. right. vm_compute. left.
Defined.

(** X3.  Inside the region and a band, for a track not yet finalized
    whose previous sample (time [pt], point [pp]) is recorded and lies
    strictly in the past, the call stores the speed
    [|latest.y - pp.y| / (now - pt)], appends the track to the finalized
    list and refreshes its sample. *)
Theorem calculate_speed_measures s trk_id track latest r0 r1 pt pp now1 now2 :
  reg_pts s !! 0%nat = Some r0 -> reg_pts s !! 1%nat = Some r1 ->
  last track = Some latest ->
  in_region r0 r1 latest ->
  band s r0 r1 latest = Known ->
  trk_pt s !! trk_id = Some pt -> ~ (pt == 0)%Q ->
  trk_pp s !! trk_id = Some pp ->
  trk_id ∉ trkd_ids s ->
  (0 < now1 - pt)%Q ->
  calculate_speed trk_id track now1 now2 s =
    (set_trk_pp <[trk_id := latest]>
       (set_trk_pt <[trk_id := now2]>
          (set_spd <[trk_id := (Qabs (snd latest - snd pp) / (now1 - pt))%Q]>
             (set_trkd_ids (fun ids => ids ++ [trk_id]) s))), Ok tt).
Proof.
  intros H0 H1 Hl [Hlo Hhi] Hband Hpt Hnz Hpp Hnew Hdt.
  rewrite (calculate_speed_in_region s trk_id track latest r0 r1) by done.
  unfold bind at 1.
  rewrite (finalize_guard_passes s trk_id latest r0 r1 pt now1) by done.
  apply Qltb_lt in Hdt. cbv zeta. rewrite Hdt, Hpp. reflexivity.
Qed.

Lemma calculate_speed_measures_witness :
  calculate_speed 1 SpeedScenario.track_b (6 # 1) (6 # 1) SpeedScenario.sampled =
    (set_trk_pp <[1 := (100 # 1, 395 # 1)%Q]>
       (set_trk_pt <[1 := (6 # 1)%Q]>
          (set_spd <[1 := (Qabs ((395 # 1) - (300 # 1)) / ((6 # 1) - (5 # 1)))%Q]>
             (set_trkd_ids (fun ids => ids ++ [1]) SpeedScenario.sampled))), Ok tt).
Proof.
  apply (calculate_speed_measures SpeedScenario.sampled 1 SpeedScenario.track_b
           (100 # 1, 395 # 1)%Q (20 # 1, 400 # 1)%Q (1260 # 1, 400 # 1)%Q
           (5 # 1)%Q (100 # 1, 300 # 1)%Q).
  - reflexivity.
  - reflexivity.
  - reflexivity.
  - split; vm_compute; reflexivity.
  - vm_compute. reflexivity.
  - vm_compute. reflexivity.
  - vm_compute. discriminate.
  - vm_compute. reflexivity.
  - vm_compute. intros H. inversion H.
  - vm_compute. reflexivity.
Defined.

(** X4.  With no region point at all, or with an empty track, the call
    raises IndexError before anything is written. *)
Theorem calculate_speed_index_error s trk_id track now1 now2 :
  reg_pts s = [] \/ track = [] ->
  calculate_speed trk_id track now1 now2 s = (s, Raise IndexError).
Proof.
  intros Hempty.
  unfold calculate_speed, index, index_last, bind, get, ret, raise.
  destruct Hempty as [-> | ->]; [done|].
  by destruct (reg_pts s !! 0%nat).
Qed.

Lemma calculate_speed_index_error_witness :
  calculate_speed 1 [] (3 # 1) (3 # 1) SpeedScenario.fresh
  = (SpeedScenario.fresh, Raise IndexError).
Proof. apply calculate_speed_index_error. right. reflexivity. Defined.

(** X5.  A call for one track never touches what the object holds for
    another: its stored speed, its sample time and point, and whether it
    is finalized. *)
Theorem calculate_speed_other_track s id trk_id track now1 now2 :
  id <> trk_id ->
  let s' := exec (calculate_speed trk_id track now1 now2) s in
  spd s' !! id = spd s !! id /\
  trk_pt s' !! id = trk_pt s !! id /\
  trk_pp s' !! id = trk_pp s !! id /\
  (id ∈ trkd_ids s' <-> id ∈ trkd_ids s).
Proof.
  intros Hne. py_unfold.
  repeat (case_match; simplify_eq/=).
  all: rewrite ?lookup_insert_ne by done.
  all: split_and!; try done.
  all: rewrite elem_of_app, list_elem_of_singleton; tauto.
Qed.

Lemma calculate_speed_other_track_witness :
  let s' := exec (calculate_speed 2 SpeedScenario.track_b (6 # 1) (6 # 1))
                 SpeedScenario.measured in
  spd s' !! 1 = spd SpeedScenario.measured !! 1 /\
  trk_pt s' !! 1 = trk_pt SpeedScenario.measured !! 1 /\
  trk_pp s' !! 1 = trk_pp SpeedScenario.measured !! 1 /\
  (1 ∈ trkd_ids s' <-> 1 ∈ trkd_ids SpeedScenario.measured).
Proof. apply calculate_speed_other_track. lia. Defined.

(** *** Frames without detections *)

(** X6.  On a frame without ids [estimate_speed] hands the image back
    untouched, unless the display is on: it then calls [display_frames],
    which the class does not define, and raises AttributeError.  On a frame
    with an empty list of ids it returns the image, or [None] when the
    display is on and reports the key q.  In both cases the object is left
    as it was. *)
Theorem estimate_speed_idle_frame s q :
  estimate_speed (mkFrame None q) s =
    (s, if view_img s && env_check s then Raise (AttributeError "display_frames")
        else Ok RetImage) /\
  estimate_speed (mkFrame (Some []) q) s =
    (s, Ok (if view_img s && env_check s && q then RetNone else RetImage)).
Proof.
  unfold estimate_speed, bind, get, ret, raise. simpl. split.
  - by destruct (view_img s && env_check s).
  - by destruct (view_img s && env_check s && q).
Qed.

(** *** Invariants of a session *)

Lemma step_sample_inv c s : sample_inv s -> sample_inv (step c s).
Proof.
  intros Hinv. destruct c as [trk_id track now1 now2|f]; simpl.
  2:{ by rewrite estimate_speed_state. }
  intros id. py_unfold.
  repeat (case_match; simplify_eq/=); try (by apply Hinv).
  all: destruct (decide (trk_id = id)) as [->|Hne];
    [ rewrite !lookup_insert_eq; eauto
    | rewrite !lookup_insert_ne by done; apply Hinv ].
Qed.

Lemma reachable_sample_inv s : reachable s -> sample_inv s.
Proof.
  induction 1 as [|s c _ IH].
  - intros id [v Hv]. simpl in Hv. by rewrite lookup_empty in Hv.
  - by apply step_sample_inv.
Qed.

Lemma speed_value_nonneg (dy dt : Q) : Qltb 0 dt = true -> (0 <= Qabs dy / dt)%Q.
Proof.
  intros Hdt%Qltb_lt. apply Qle_shift_div_l; [done|].
  rewrite Qmult_0_l. apply Qabs_nonneg.
Qed.

(** The speeds a call leaves: the old ones, or one more, built as on
    line 70 from a positive time difference. *)
Lemma calculate_speed_spd_cases s trk_id track now1 now2 :
  let s' := exec (calculate_speed trk_id track now1 now2) s in
  spd s' = spd s \/
  exists dy dt, Qltb 0 dt = true /\ spd s' = <[trk_id := (Qabs dy / dt)%Q]> (spd s).
Proof.
  py_unfold.
  repeat (case_match; simplify_eq); cbn [fst spd set_spd set_trk_pt set_trk_pp set_trkd_ids];
    eauto.
Qed.

Lemma step_speeds_inv c s : speeds_inv s -> speeds_inv (step c s).
Proof.
  intros Hinv. destruct c as [trk_id track now1 now2|f]; simpl.
  2:{ by rewrite estimate_speed_state. }
  destruct (calculate_speed_spd_cases s trk_id track now1 now2)
    as [Heq|(dy & dt & Hdt & Heq)]; intros id v; rewrite Heq; [apply Hinv|].
  destruct (decide (trk_id = id)) as [->|Hne].
  - rewrite lookup_insert_eq. intros [= <-]. by apply speed_value_nonneg.
  - rewrite lookup_insert_ne by done. apply Hinv.
Qed.

Lemma step_finalized_nodup c s : NoDup (trkd_ids s) -> NoDup (trkd_ids (step c s)).
Proof.
  intros Hnd. destruct c as [trk_id track now1 now2|f]; simpl.
  2:{ by rewrite estimate_speed_state. }
  py_unfold.
  repeat (case_match; simplify_eq/=); try done.
  all: rewrite ?andb_true_iff, ?negb_true_iff, ?bool_decide_eq_false in *.
  all: apply NoDup_app; split_and!; [done | | apply NoDup_singleton].
  all: intros x Hx ->%list_elem_of_singleton; tauto.
Qed.

(** X7.  In every state of a session no stored speed is negative. *)
Theorem stored_speed_nonnegative s id v :
  reachable s -> spd s !! id = Some v -> (0 <= v)%Q.
Proof.
  intros Hs. revert id v. change (speeds_inv s).
  induction Hs as [|s c _ IH].
  - intros id v Hv. simpl in Hv. by rewrite lookup_empty in Hv.
  - by apply step_speeds_inv.
Qed.

Lemma stored_speed_nonnegative_witness :
  (0 <= Qabs ((395 # 1) - (300 # 1)) / ((6 # 1) - (5 # 1)))%Q.
Proof.
  apply (stored_speed_nonnegative SpeedScenario.measured 1).
  - unfold SpeedScenario.measured, SpeedScenario.sampled, SpeedScenario.fresh.
    apply (reach_step _ (CallCalculate _ _ _ _)).
    apply (reach_step _ (CallCalculate _ _ _ _)).
    apply reach_init.
  - vm_compute. reflexivity.
Defined.

(** X8.  In every state of a session the finalized list holds no track
    twice, and every track with a stored speed is on it. *)
Theorem finalized_list_sound s :
  reachable s ->
  NoDup (trkd_ids s) /\
  forall id, is_Some (spd s !! id) -> id ∈ trkd_ids s.
Proof.
  intros Hs. split; [|by apply reachable_inv].
  induction Hs as [|s c _ IH]; [constructor | by apply step_finalized_nodup].
Qed.

Lemma finalized_list_sound_witness :
  NoDup (trkd_ids SpeedScenario.measured) /\
  forall id, is_Some (spd SpeedScenario.measured !! id) ->
             id ∈ trkd_ids SpeedScenario.measured.
Proof.
  apply finalized_list_sound.
  unfold SpeedScenario.measured, SpeedScenario.sampled, SpeedScenario.fresh.
  apply (reach_step _ (CallCalculate _ _ _ _)).
  apply (reach_step _ (CallCalculate _ _ _ _)).
  apply reach_init.
Defined.

(** X9.  In a session, a call with two region points and a non-empty
    track raises in one case only: the latest point is inside the region
    and a band while the track has no recorded sample and is not
    finalized; the exception is then the KeyError of the read of
    [trk_pt[trk_id]].  In every other case the call returns normally. *)
Theorem calculate_speed_only_error s trk_id track latest r0 r1 now1 now2 :
  reachable s ->
  reg_pts s !! 0%nat = Some r0 -> reg_pts s !! 1%nat = Some r1 ->
  last track = Some latest ->
  let unseen_in_band :=
    in_region r0 r1 latest /\ band s r0 r1 latest = Known /\
    trk_pt s !! trk_id = None /\ trk_id ∉ trkd_ids s in
  (unseen_in_band ->
     result (calculate_speed trk_id track now1 now2) s = Raise (KeyError "trk_pt" trk_id)) /\
  (~ unseen_in_band ->
     result (calculate_speed trk_id track now1 now2) s = Ok tt).
Proof.
  intros Hs H0 H1 Hl unseen. subst unseen. split.
  - intros ([Hlo Hhi] & Hband & Hpt & Hnew). unfold result.
    rewrite (calculate_speed_in_region s trk_id track latest r0 r1) by done.
    unfold bind at 1. unfold finalize, bind, get, modify, read_trk_pt.
    rewrite Hband. unfold prev_time_nonzero. rewrite Hpt. simpl.
    rewrite bool_decide_eq_false_2 by done. simpl. by rewrite Hpt.
  - intros Hnot. pose proof (reachable_sample_inv s Hs trk_id) as Hpp.
    unfold result, calculate_speed, index, index_last, bind, get, ret.
    rewrite H0, Hl.
    destruct (Qltb (fst r0) (fst latest)) eqn:Hlo; [|done]. simpl. rewrite H1.
    destruct (Qltb (fst latest) (fst r1)) eqn:Hhi; [|done]. simpl.
    apply Qltb_lt in Hlo, Hhi.
    unfold finalize, bind, get, modify, ret, read_trk_pt, read_trk_pp.
    unfold prev_time_nonzero in *.
    destruct (band s r0 r1 latest) eqn:Hband; simpl; [|by rewrite andb_false_r].
    destruct (bool_decide (trk_id ∈ trkd_ids s)) eqn:Hin; simpl;
      [by rewrite andb_false_r|].
    apply bool_decide_eq_false in Hin.
    destruct (trk_pt s !! trk_id) as [pt|] eqn:Hpt.
    + destruct (Qeq_bool pt 0); simpl; [done|]. rewrite Hpt.
      destruct (Qltb 0 (now1 - pt)); [|done]. simpl.
      destruct Hpp as [pp ->]; [eauto|]. done.
    + exfalso. apply Hnot. by repeat split.
Qed.

Lemma calculate_speed_only_error_witness :
  (in_region (20 # 1, 400 # 1)%Q (1260 # 1, 400 # 1)%Q (100 # 1, 395 # 1)%Q /\
   band SpeedScenario.sampled (20 # 1, 400 # 1)%Q (1260 # 1, 400 # 1)%Q (100 # 1, 395 # 1)%Q
   = Known /\
   trk_pt SpeedScenario.sampled !! 2 = None /\ 2 ∉ trkd_ids SpeedScenario.sampled ->
   result (calculate_speed 2 SpeedScenario.track_b (6 # 1) (6 # 1)) SpeedScenario.sampled
   = Raise (KeyError "trk_pt" 2)) /\
  (~ (in_region (20 # 1, 400 # 1)%Q (1260 # 1, 400 # 1)%Q (100 # 1, 395 # 1)%Q /\
      band SpeedScenario.sampled (20 # 1, 400 # 1)%Q (1260 # 1, 400 # 1)%Q (100 # 1, 395 # 1)%Q
      = Known /\
      trk_pt SpeedScenario.sampled !! 2 = None /\ 2 ∉ trkd_ids SpeedScenario.sampled) ->
   result (calculate_speed 2 SpeedScenario.track_b (6 # 1) (6 # 1)) SpeedScenario.sampled
   = Ok tt).
Proof.
  apply (calculate_speed_only_error SpeedScenario.sampled 2 SpeedScenario.track_b
           (100 # 1, 395 # 1)%Q (20 # 1, 400 # 1)%Q (1260 # 1, 400 # 1)%Q).
  - unfold SpeedScenario.sampled, SpeedScenario.fresh.
    apply (reach_step _ (CallCalculate _ _ _ _)). apply reach_init.
  - reflexivity.
  - reflexivity.
  - reflexivity.
Defined.

End SpeedEstimatorMore.
(** ** Further properties of heatmap.py *)

Module HeatmapMore.
Import Heatmap HeatmapFacts.

(** *** Construction *)

Lemma init_polygon names0 alpha view pts k ok :
  (3 <= length pts)%nat ->
  init names0 alpha view (Some pts) k ok
  = ([msg_polygon],
     Ok (set_region (Polygon pts) None (blank names0 alpha view (Some pts) k ok))).
Proof.
  intros Hlen. unfold init.
  destruct (Z.eqb_spec (Z.of_nat (length pts)) 2); [lia|].
  destruct (Z.leb_spec 3 (Z.of_nat (length pts))); [done | lia].
Qed.

(** X10.  Given region points, [__init__] yields an object exactly when
    their number is not one.  The object then keeps the points, holds a
    counting region, holds a counting line exactly for two points, and
    starts with zero totals, no counted track, no class bucket, no history
    and no buffer. *)
Theorem init_outcome names0 alpha view pts k ok :
  (length pts <> 1%nat <-> exists s, snd (init names0 alpha view (Some pts) k ok) = Ok s) /\
  forall s, snd (init names0 alpha view (Some pts) k ok) = Ok s ->
    count_reg_pts s = Some pts /\
    is_Some (counting_region s) /\
    (is_Some (counting_line_segment s) <-> length pts = 2%nat) /\
    in_counts s = 0 /\ out_counts s = 0 /\ count_ids s = [] /\
    class_wise_count s = ∅ /\ track_history s = ∅ /\
    heatmap s = None /\ initialized s = false.
Proof.
  destruct (decide (3 <= length pts)%nat) as [Hlen|Hlen].
  { rewrite init_polygon by done. split.
    - split; [intros _; by eexists | lia].
    - intros s [= <-]. simpl. split_and!; try done;
        try (split; [by intros [? ?] | lia]). }
  destruct pts as [|p [|p' [|p'' pts]]]; [| | |simpl in Hlen; lia].
  - split; [split; [intros _; by eexists | done]|].
    intros s [= <-]. simpl. split_and!; try done;
      try (split; [by intros [? ?] | done]).
  - split; [split; [done | by intros [s Hs]]|]. by intros s Hs.
  - split; [split; [intros _; by eexists | done]|].
    intros s [= <-]. simpl. split_and!; done.
Qed.


Section More.
Context `{G : Geometry}.

Ltac cc_unfold :=
  unfold count_crossing, record_count, bump, the_region, the_line, index_last,
    bind, get, modify, ret, raise, exec, result in *.

(** *** Detections that cannot count *)

(** X11.  The first detection of a track (no history yet) is never
    counted, whatever the region: no total, no per-class counter and not
    the counted list change. *)
Theorem first_observation_not_counted s d :
  history_of s (d_id d) = [] ->
  same_counters s (exec (track_detection d) s).
Proof.
  intros Hnew.
  destruct (names s !! d_cls d) as [label|] eqn:Hl.
  2:{ unfold exec. rewrite track_detection_unknown by done. apply same_counters_refl. }
  unfold exec. rewrite (track_detection_known s d label Hl), Hnew.
  match goal with |- same_counters _ (fst (count_crossing _ _ ?tl ?pv ?s1)) =>
    destruct (count_crossing_cases s1 d label tl pv) as [Heq|(_ & p & region & Hp & _)] end.
  - unfold exec in Heq. rewrite Heq. apply prepared_same_counters.
  - done.
Qed.

Lemma count_crossing_off s d label track_line prev :
  (count_reg_pts s = None \/
   exists pts, count_reg_pts s = Some pts /\ (length pts < 2)%nat) ->
  count_crossing d label track_line prev s = (s, Ok tt).
Proof.
  intros [Hp|(pts & Hp & Hlen)]; unfold count_crossing, bind, get, ret; rewrite Hp; [done|].
  destruct (Z.leb_spec 3 (Z.of_nat (length pts))); [lia|].
  destruct (Z.eqb_spec (Z.of_nat (length pts)) 2); [lia|]. done.
Qed.

Lemma generate_heatmap_off f s :
  (count_reg_pts s = None \/
   exists pts, count_reg_pts s = Some pts /\ (length pts < 2)%nat) ->
  same_counters s (exec (generate_heatmap f) s) /\
  count_reg_pts (exec (generate_heatmap f) s) = count_reg_pts s.
Proof.
  intros Hoff.
  apply (generate_heatmap_inv
           (fun s' => same_counters s s' /\ count_reg_pts s' = count_reg_pts s)).
  - by intros s' g [? ?].
  - by intros s' g [? ?].
  - intros d s' _ [Hsame Hp'].
    destruct (names s' !! d_cls d) as [label|] eqn:Hl.
    2:{ unfold exec. by rewrite track_detection_unknown. }
    unfold exec. rewrite (track_detection_known s' d label Hl).
    destruct (prepared_fields s' d label) as (_ & _ & _ & Hr & _).
    rewrite count_crossing_off by (by rewrite Hr, Hp').
    cbn [fst]. split; [|by rewrite Hr].
    eapply same_counters_trans; [done | apply prepared_same_counters].
  - split; [apply same_counters_refl | done].
Qed.

(** X12.  A session without region points, or with fewer than two,
    never counts: after any sequence of frames the totals, the counted
    list and every per-class counter are what they were. *)
Theorem counting_off_for_session s fs :
  (count_reg_pts s = None \/
   exists pts, count_reg_pts s = Some pts /\ (length pts < 2)%nat) ->
  same_counters s (run fs s).
Proof.
  revert s. induction fs as [|f fs IH]; intros s Hoff; [apply same_counters_refl|].
  simpl. destruct (generate_heatmap_off f s Hoff) as [Hsame Hp].
  eapply same_counters_trans; [done|]. apply IH. by rewrite Hp.
Qed.

(** *** Polygon mode *)

(** X13.  In polygon mode, for a detection of an uncounted track with a
    previous position, a count is recorded exactly when the centre of the
    current box is contained in the region. *)
Theorem polygon_crossing_by_centre s d label prev region pts :
  names s !! d_cls d = Some label ->
  last (history_of s (d_id d)) = Some prev ->
  d_id d ∉ count_ids s ->
  count_reg_pts s = Some pts -> (3 <= length pts)%nat ->
  counting_region s = Some region ->
  let s' := exec (track_detection d) s in
  result (track_detection d) s = Ok tt /\
  (contains region (bbox_center (d_box d)) = true ->
     count_ids s' = count_ids s ++ [d_id d] /\
     in_counts s' + out_counts s' = in_counts s + out_counts s + 1) /\
  (contains region (bbox_center (d_box d)) = false ->
     count_ids s' = count_ids s /\ in_counts s' = in_counts s /\
     out_counts s' = out_counts s).
Proof.
  intros Hl Hprev Hnew Hp Hlen Hr s'. subst s'. unfold exec, result.
  rewrite (track_detection_known s d label Hl), Hprev.
  destruct (prepared_fields s d label) as (Hc & Hi & Ho & Hp' & Hr' & _).
  rewrite (count_crossing_polygon _ _ _ _ (bbox_center (d_box d)) _ pts region)
    by (congruence || apply append_bounded_last).
  destruct (contains region (bbox_center (d_box d))) eqn:Hin.
  - rewrite (record_count_bucket _ _ _ _ _ _ (prepared_bucket s d label)).
    split; [done|]. split; [|done]. intros _.
    destruct (moves_in (d_box d) prev region); unfold counted_in, counted_out;
      cbn -[prepared]; rewrite Hc, Hi, Ho; split; (done || lia).
  - cbn [fst snd]. split; [done|]. split; [done|]. intros _. by rewrite Hc, Hi, Ho.
Qed.

(** *** Histories *)

Lemma track_detection_other_history s d id :
  id <> d_id d ->
  track_history (exec (track_detection d) s) !! id = track_history s !! id.
Proof.
  intros Hne.
  destruct (names s !! d_cls d) as [label|] eqn:Hl.
  2:{ unfold exec. by rewrite track_detection_unknown. }
  unfold exec. rewrite (track_detection_known s d label Hl).
  assert (track_history (prepared s d label) !! id = track_history s !! id) as Hprep.
  { unfold prepared. simpl. rewrite lookup_insert_ne by done. by case_bool_decide. }
  match goal with |- track_history (fst (count_crossing _ _ ?tl ?pv ?s1)) !! _ = _ =>
    destruct (count_crossing_cases s1 d label tl pv) as [Heq|(_ & p & region & _ & Heq)];
    [ unfold exec in Heq; rewrite Heq
    | rewrite Heq;
      destruct (record_count_totals s1 d label p region) as (_ & _ & Hh & _);
      unfold exec in Hh; rewrite Hh ]
  end; done.
Qed.

Lemma track_detection_history_nonempty d s :
  history_nonempty s -> history_nonempty (exec (track_detection d) s).
Proof.
  intros Hinv id l.
  destruct (decide (id = d_id d)) as [->|Hne].
  - destruct (names s !! d_cls d) as [label|] eqn:Hl.
    + rewrite (track_detection_history s d label Hl). intros [= <-] Hnil.
      pose proof (append_bounded_last (history_of s (d_id d)) (bbox_center (d_box d))) as Hlast.
      by rewrite Hnil in Hlast.
    + unfold exec. rewrite track_detection_unknown by done. apply Hinv.
  - rewrite track_detection_other_history by done. apply Hinv.
Qed.

(** X14.  In every state of a session each recorded history holds at
    least one and at most 30 positions. *)
Theorem history_between_1_and_30 s id l :
  reachable s -> track_history s !! id = Some l ->
  (1 <= length l <= 30)%nat.
Proof.
  intros Hs Hl. split; [|by eapply reachable_history_inv].
  assert (history_nonempty s) as Hne.
  { clear Hl. induction Hs as [? ? ? ? ? ? s Hinit|s f _ IH].
    - apply init_fresh in Hinit as (_ & _ & _ & Hh & _).
      intros id' l'. by rewrite Hh, lookup_empty.
    - apply (generate_heatmap_inv history_nonempty); try done.
      intros. by apply track_detection_history_nonempty. }
  specialize (Hne id l Hl). destruct l; [done | simpl; lia].
Qed.

(** X15.  Processing a detection of a named class sets the history of
    its track to the old one with the new box centre at the end, without
    its oldest entry when it already held 30, and touches no other track;
    this holds whether or not the counting that follows raises. *)
Theorem history_update_fifo s d label :
  reachable s ->
  names s !! d_cls d = Some label ->
  let s' := exec (track_detection d) s in
  let old := history_of s (d_id d) in
  track_history s' !! d_id d
  = Some (if decide (length old < 30)%nat then old ++ [bbox_center (d_box d)]
          else drop 1 old ++ [bbox_center (d_box d)]) /\
  forall id, id <> d_id d -> track_history s' !! id = track_history s !! id.
Proof.
  intros Hs Hl s' old. subst s' old. split.
  - rewrite (track_detection_history s d label Hl). f_equal.
    case_decide as Hlen; [by apply append_bounded_room|].
    assert (length (history_of s (d_id d)) <= 30)%nat as Hmax.
    { unfold history_of. destruct (track_history s !! d_id d) as [l|] eqn:E; simpl; [|lia].
      by eapply reachable_history_inv. }
    destruct (history_of s (d_id d)) as [|x l]; [simpl in *; lia|].
    change (drop 1 (x :: l)) with l. apply append_bounded_full. lia.
  - intros id Hne. by apply track_detection_other_history.
Qed.

(** *** The shape of a frame's processing *)

Lemma generate_heatmap_unfold f s :
  generate_heatmap f s =
    match frame_loop f (decayed f s) with
    | (s', Ok _) =>
        (s', Ok (if env_check s && view_img s && f_key_q f then RetNone else RetImage))
    | (s', Raise e) => (s', Raise e)
    end.
Proof.
  unfold generate_heatmap, decayed, frame_loop, bind, get, modify, ret.
  destruct (initialized s); cbv beta iota;
    match goal with |- context [(if truthy ?x then ?a else ?b) ?s0] =>
      destruct ((if truthy x then a else b) s0) as [s' [[]|e]] end;
    try done; by destruct (env_check s && view_img s && f_key_q f).
Qed.

Lemma generate_heatmap_exec f s :
  exec (generate_heatmap f) s = exec (frame_loop f) (decayed f s).
Proof.
  unfold exec. rewrite generate_heatmap_unfold.
  by destruct (frame_loop f (decayed f s)) as [s' [[]|e]].
Qed.

(** A property that holds when the loops start and is kept by the loop
    body holds when the frame is done. *)
Lemma generate_heatmap_inv_from f s (P : t -> Prop) :
  P (decayed f s) ->
  (forall d s', d ∈ dets_of f -> P s' -> P (exec (track_detection d) s')) ->
  P (exec (generate_heatmap f) s).
Proof.
  intros Hstart Hbody. rewrite generate_heatmap_exec.
  unfold frame_loop, iterate, dets_of in *.
  destruct (f_dets f) as [[|d ds]|]; simpl in *; try done.
  by apply (for_each_inv P track_detection (d :: ds)).
Qed.


(** *** Outcome of a frame *)




(** *** What one detection does to the counters *)

(** After a detection of a named class the object is the prepared one,
    or the prepared one with one crossing recorded IN or OUT for a track
    that was not counted. *)
Lemma track_detection_effect s d label :
  names s !! d_cls d = Some label ->
  let s1 := prepared s d label in
  let b := counts_of (class_wise_count s) label in
  let s' := exec (track_detection d) s in
  s' = s1 \/
  ((d_id d ∉ count_ids s) /\
   (s' = counted_in s1 (d_id d) label b \/ s' = counted_out s1 (d_id d) label b)).
Proof.
  intros Hl s1 b s'. subst s' s1 b. unfold exec.
  rewrite (track_detection_known s d label Hl).
  match goal with |- fst (count_crossing _ _ ?tl ?pv ?s1) = _ \/ _ =>
    destruct (count_crossing_cases s1 d label tl pv) as [Heq|(Hnew & p & region & _ & Heq)] end.
  - by left.
  - right. destruct (prepared_fields s d label) as (Hc & _). rewrite Hc in Hnew.
    split; [done|]. rewrite Heq.
    rewrite (record_count_bucket _ _ _ _ _ _ (prepared_bucket s d label)).
    destruct (moves_in (d_box d) p region); auto.
Qed.

Lemma grows_refl s : grows s s.
Proof. unfold grows. split_and!; try done; try lia. Qed.

Lemma grows_trans s1 s2 s3 : grows s1 s2 -> grows s2 s3 -> grows s1 s3.
Proof.
  intros (? & ? & ? & Ha) (? & ? & ? & Hb). unfold grows.
  split_and!; [lia | lia | by etrans |].
  intros l. destruct (Ha l), (Hb l). lia.
Qed.

Lemma same_counters_grows s s' : same_counters s s' -> grows s s'.
Proof.
  intros (Hi & Ho & Hc & Hb). unfold grows. rewrite Hi, Ho, Hc.
  split_and!; try done. intros l. by rewrite Hb.
Qed.

Lemma track_detection_grows d s : grows s (exec (track_detection d) s).
Proof.
  destruct (names s !! d_cls d) as [label|] eqn:Hl.
  2:{ unfold exec. rewrite track_detection_unknown by done. apply grows_refl. }
  pose proof (prepared_same_counters s d label) as Hprep.
  destruct (track_detection_effect s d label Hl) as [->|[_ [->| ->]]].
  - by apply same_counters_grows.
  - eapply grows_trans; [by apply same_counters_grows|].
    unfold grows, counted_in. cbn -[prepared].
    split_and!; [lia | lia | by apply prefix_app_r |].
    intros l. rewrite counts_of_insert. case_decide as Hd; [|lia]. subst.
    rewrite prepared_counts. simpl. lia.
  - eapply grows_trans; [by apply same_counters_grows|].
    unfold grows, counted_out. cbn -[prepared].
    split_and!; [lia | lia | by apply prefix_app_r |].
    intros l. rewrite counts_of_insert. case_decide as Hd; [|lia]. subst.
    rewrite prepared_counts. simpl. lia.
Qed.

Lemma track_detection_one_more d s :
  (length (count_ids (exec (track_detection d) s)) <= length (count_ids s) + 1)%nat.
Proof.
  destruct (names s !! d_cls d) as [label|] eqn:Hl.
  2:{ unfold exec. rewrite track_detection_unknown by done. simpl. lia. }
  destruct (prepared_fields s d label) as (Hc & _).
  destruct (track_detection_effect s d label Hl) as [->|[_ [->| ->]]];
    unfold counted_in, counted_out; cbn -[prepared];
    rewrite ?length_app, Hc; simpl; lia.
Qed.

Lemma for_each_one_more (ds : list detection) s :
  (length (count_ids (exec (for_each track_detection ds) s))
   <= length (count_ids s) + length ds)%nat.
Proof.
  revert s. induction ds as [|d ds IH]; intros s; [unfold exec; simpl; lia|].
  unfold exec in *. simpl. unfold bind.
  pose proof (track_detection_one_more d s) as Hd. unfold exec in Hd.
  destruct (track_detection d s) as [s1 [[]|e]]; simpl in *.
  - specialize (IH s1). lia.
  - lia.
Qed.

(** X17.  Across a frame no counter ever goes down: the two totals and
    every per-class counter only grow, the counted list is only extended
    at its end, and it gains at most one track per detection of the
    frame. *)
Theorem counters_only_grow f s :
  let s' := exec (generate_heatmap f) s in
  grows s s' /\
  (length (count_ids s') <= length (count_ids s) + length (dets_of f))%nat.
Proof.
  split.
  - apply (generate_heatmap_inv (grows s)); [done | done | | apply grows_refl].
    intros d s' _ Hs'. eapply grows_trans; [done | apply track_detection_grows].
  - rewrite generate_heatmap_exec.
    assert (count_ids (decayed f s) = count_ids s) as <-
      by (unfold decayed; by destruct (initialized s)).
    unfold frame_loop, iterate, dets_of.
    destruct (f_dets f) as [[|d ds]|]; cbn [truthy default].
    + unfold exec, for_each, ret. cbn [fst]. lia.
    + apply (for_each_one_more (d :: ds)).
    + unfold exec, raise. cbn [fst]. lia.
Qed.

(** *** Per-class counters and totals *)

Lemma sum_in_insert (m : gmap string bucket) l b :
  sum_in (<[l := b]> m) = sum_in m - b_in (counts_of m l) + b_in b.
Proof.
  unfold sum_in, counts_of.
  destruct (m !! l) as [b0|] eqn:Hl; simpl.
  - rewrite <- insert_delete_eq.
    rewrite map_fold_insert_L; [|intros; lia | apply lookup_delete_eq].
    rewrite (map_fold_delete_L _ _ l b0 m); [lia | intros; lia | done].
  - rewrite map_fold_insert_L; [lia | intros; lia | done].
Qed.

Lemma sum_out_insert (m : gmap string bucket) l b :
  sum_out (<[l := b]> m) = sum_out m - b_out (counts_of m l) + b_out b.
Proof.
  unfold sum_out, counts_of.
  destruct (m !! l) as [b0|] eqn:Hl; simpl.
  - rewrite <- insert_delete_eq.
    rewrite map_fold_insert_L; [|intros; lia | apply lookup_delete_eq].
    rewrite (map_fold_delete_L _ _ l b0 m); [lia | intros; lia | done].
  - rewrite map_fold_insert_L; [lia | intros; lia | done].
Qed.

Lemma prepared_class_sums s d label :
  class_sums_inv s -> class_sums_inv (prepared s d label).
Proof.
  intros [Hi Ho]. destruct (prepared_fields s d label) as (_ & Hin & Hout & _).
  unfold class_sums_inv. rewrite Hin, Hout.
  unfold prepared. simpl. case_bool_decide as Hd; simpl; [done|].
  rewrite sum_in_insert, sum_out_insert. unfold counts_of.
  apply not_elem_of_dom in Hd. rewrite Hd. simpl. lia.
Qed.

Lemma track_detection_class_sums d s :
  class_sums_inv s -> class_sums_inv (exec (track_detection d) s).
Proof.
  intros Hinv.
  destruct (names s !! d_cls d) as [label|] eqn:Hl.
  2:{ unfold exec. by rewrite track_detection_unknown. }
  pose proof (prepared_class_sums s d label Hinv) as [Hi Ho].
  pose proof (prepared_counts s d label label) as Hb.
  destruct (track_detection_effect s d label Hl) as [->|[_ [->| ->]]]; [done| |].
  - unfold class_sums_inv, counted_in. cbn -[prepared].
    rewrite sum_in_insert, sum_out_insert, Hb.
    unfold bump_in. cbn [b_in b_out]. lia.
  - unfold class_sums_inv, counted_out. cbn -[prepared].
    rewrite sum_in_insert, sum_out_insert, Hb.
    unfold bump_out. cbn [b_in b_out]. lia.
Qed.

(** X18.  In every state of a session the per-class IN counters add up
    to the IN total and the per-class OUT counters to the OUT total. *)
Theorem class_counters_sum_to_totals s :
  reachable s ->
  sum_in (class_wise_count s) = in_counts s /\
  sum_out (class_wise_count s) = out_counts s.
Proof.
  intros Hs. change (class_sums_inv s).
  induction Hs as [? ? ? ? ? ? s Hinit|s f _ IH].
  - apply init_fresh in Hinit as (_ & Hi & Ho & _ & Hc & _).
    unfold class_sums_inv, sum_in, sum_out. rewrite Hi, Ho, Hc.
    by rewrite !map_fold_empty.
  - apply (generate_heatmap_inv class_sums_inv); try done.
    intros. by apply track_detection_class_sums.
Qed.

(** *** The buffer *)

(** Heat is added for a detection exactly when its class has a name. *)
Lemma track_detection_buffer d s :
  heatmap (exec (track_detection d) s) =
    match names s !! d_cls d with
    | Some _ => add_heat (d_box d) <$> heatmap s
    | None => heatmap s
    end /\
  initialized (exec (track_detection d) s) = initialized s /\
  decay_factor (exec (track_detection d) s) = decay_factor s.
Proof.
  destruct (names s !! d_cls d) as [label|] eqn:Hl.
  2:{ unfold exec. by rewrite track_detection_unknown. }
  assert (heatmap (prepared s d label) = add_heat (d_box d) <$> heatmap s /\
          initialized (prepared s d label) = initialized s /\
          decay_factor (prepared s d label) = decay_factor s) as Hprep.
  { unfold prepared. simpl. by case_bool_decide. }
  by destruct (track_detection_effect s d label Hl) as [->|[_ [->| ->]]].
Qed.

Lemma shape_decay k hm : shape (decay k hm) = shape hm.
Proof.
  unfold shape, decay. rewrite List.map_map. apply List.map_ext.
  intros row. apply List.length_map.
Qed.

Lemma shape_zeros h w : shape (zeros h w) = replicate h w.
Proof.
  unfold shape, zeros. induction h as [|h IH]; simpl; [done|].
  by rewrite IH, length_replicate.
Qed.

Lemma shape_imap (f : nat -> list Q -> list Q) hm :
  (forall y row, length (f y row) = length row) ->
  shape (imap f hm) = shape hm.
Proof.
  unfold shape. revert f. induction hm as [|row hm IH]; intros f Hf; [done|].
  simpl. rewrite Hf. f_equal. apply IH. intros. apply Hf.
Qed.

Lemma shape_add_heat b hm : shape (add_heat b hm) = shape hm.
Proof.
  unfold add_heat. apply shape_imap. intros y row. apply length_imap.
Qed.

(** X19.  After any frame the object is initialized and its buffer has
    the shape it had before; on the first frame it gets the height and
    width of that frame.  Later frames of another size do not resize
    it. *)
Theorem buffer_shape_fixed f s :
  let s' := exec (generate_heatmap f) s in
  initialized s' = true /\
  shape <$> heatmap s' =
    if initialized s then shape <$> heatmap s
    else Some (replicate (f_height f) (f_width f)).
Proof.
  apply (generate_heatmap_inv_from f s
           (fun s' => initialized s' = true /\
                      shape <$> heatmap s' =
                        if initialized s then shape <$> heatmap s
                        else Some (replicate (f_height f) (f_width f)))).
  - unfold decayed. destruct (initialized s) eqn:Hi; simpl.
    + split; [done|]. rewrite <- option_fmap_compose.
      apply option_fmap_ext. intros hm. apply shape_decay.
    + split; [done|]. by rewrite shape_decay, shape_zeros.
  - intros d s' _ [Hi Hshape].
    destruct (track_detection_buffer d s') as (Hb & Hi' & _).
    split; [congruence|]. rewrite Hb, <- Hshape.
    destruct (names s' !! d_cls d); [|done].
    rewrite <- option_fmap_compose. apply option_fmap_ext. intros hm. apply shape_add_heat.
Qed.






(** *** Frames without tracked detections *)



End More.

(** *** The properties on concrete sessions, with the plane geometry *)

Import Plane HeatScenario.

Lemma square_session_reachable : reachable square_session.
Proof.
  apply (reach_init class_names (1 # 2) false (Some square_pts) (99 # 100) false).
  reflexivity.
Qed.


Lemma first_observation_not_counted_witness :
  same_counters line_session
    (exec (track_detection (mkDet box_low 0 1)) line_session).
Proof. apply first_observation_not_counted. reflexivity. Defined.

Lemma counting_off_for_session_witness :
  same_counters plain_session
    (run [person_at box_low; person_at box_high] plain_session).
Proof. apply counting_off_for_session. left. reflexivity. Defined.

Lemma polygon_crossing_by_centre_witness :
  let d := mkDet box_inside 0 1 in
  let s' := exec (track_detection d) seen_outside in
  result (track_detection d) seen_outside = Ok tt /\
  (contains (GPolygon square_pts) (bbox_center box_inside) = true ->
     count_ids s' = count_ids seen_outside ++ [1] /\
     in_counts s' + out_counts s' = in_counts seen_outside + out_counts seen_outside + 1) /\
  (contains (GPolygon square_pts) (bbox_center box_inside) = false ->
     count_ids s' = count_ids seen_outside /\ in_counts s' = in_counts seen_outside /\
     out_counts s' = out_counts seen_outside).
Proof.
  apply (polygon_crossing_by_centre seen_outside (mkDet box_inside 0 1) "person"
           (bbox_center box_outside) (GPolygon square_pts) square_pts).
  - reflexivity.
  - vm_compute. reflexivity.
  - vm_compute. intros H. inversion H.
  - reflexivity.
  - simpl. lia.
  - reflexivity.
Defined.

Lemma history_between_1_and_30_witness :
  (1 <= length [bbox_center box_low] <= 30)%nat.
Proof.
  apply (history_between_1_and_30 seen_once 1).
  - apply reach_frame, line_session_reachable.
  - vm_compute. reflexivity.
Defined.

Lemma history_update_fifo_witness :
  let d := mkDet box_high 0 1 in
  let s' := exec (track_detection d) seen_once in
  let old := history_of seen_once 1 in
  track_history s' !! 1
  = Some (if decide (length old < 30)%nat then old ++ [bbox_center box_high]
          else drop 1 old ++ [bbox_center box_high]) /\
  forall id, id <> 1 -> track_history s' !! id = track_history seen_once !! id.
Proof.
  apply (history_update_fifo seen_once (mkDet box_high 0 1) "person").
  - apply reach_frame, line_session_reachable.
  - reflexivity.
Defined.


Lemma class_counters_sum_to_totals_witness :
  sum_in (class_wise_count counted_once) = in_counts counted_once /\
  sum_out (class_wise_count counted_once) = out_counts counted_once.
Proof.
  apply class_counters_sum_to_totals.
  apply (frames_reachable [person_at box_low; person_at box_high]), line_session_reachable.
Defined.



End HeatmapMore.
